(** * DEST: shape alignment and the cascade-stage regressor

    A shallow embedding of [src/core/shape.cpp] and [src/core/regressor.cpp]
    and properties of the two files.

    Conventions of the embedding.

    - A [float] is a binary32 value: the [spec_float] of the standard
      library at precision 24 and maximal exponent 128, with signed zeros,
      infinities and one NaN.  Every [+], [-], [*], [/] rounds to nearest,
      ties to even, on its own (no fused multiply-add, no excess
      precision); comparisons are those of IEEE 754, false on NaN.  A
      conversion from an integer rounds like an operation.  [F32.toQ] gives
      the rational a finite float stands for, where a statement compares
      with exact arithmetic.
    - A 2 x L matrix ([Shape], [ShapeResidual], [PixelCoordinates]) is the
      list of its L columns.  Eigen asserts on a coefficient-wise operation
      between matrices of different sizes and on a column index out of
      range; the model fails ([None]) there.
    - Eigen's reductions (the sums behind [mean] and [squaredNorm], and the
      sums of a matrix product) are taken in storage order, starting from
      the first coefficient, as the scalar path of Eigen does; a vectorised
      build adds the same terms in another order.  The loops the two files
      write themselves are taken in the order written.
    - A division of a matrix by a scalar divides every coefficient (Eigen
      3.3 and later; Eigen 3.2 multiplies by the rounded reciprocal).  The
      examples below that turn on rounding are chosen so that neither this
      nor the order of a reduction matters to them.
    - Division by zero does not trap on floats.  The model keeps going, like
      the code, and records every division the code executes, with its
      divisor, in the trace of the run, so that a theorem can say which
      divisions happened.
    - Code the two files call but do not contain (Eigen's JacobiSVD, the
      random source, [Tree], [readImage]) is taken as a parameter, the class
      [External]; what a theorem assumes of it is a named hypothesis of that
      theorem.
    - The trace also records every call of [Tree::fit] with the working set
      it is given, so that what a tree is fit on can be stated about [fit]
      itself. *)

From Stdlib Require Import List ZArith QArith Lia Permutation Bool SpecFloat.
Import ListNotations.

(** ** Scalars: binary32 *)

Definition float : Set := spec_float.

Module F32.

Definition prec : Z := 24.
Definition emax : Z := 128.

Definition add : float -> float -> float := SFadd prec emax.
Definition sub : float -> float -> float := SFsub prec emax.
Definition mul : float -> float -> float := SFmul prec emax.
Definition div : float -> float -> float := SFdiv prec emax.
Definition opp : float -> float := SFopp.

(** [x < y], [x <= y] and [x == y] of C++. *)
Definition ltb : float -> float -> bool := SFltb.
Definition leb : float -> float -> bool := SFleb.
Definition eqb : float -> float -> bool := SFeqb.

(** [static_cast<float>(z)] and the integer literals. *)
Definition of_Z (z : Z) : float := binary_normalize prec emax z 0 false.

Definition zero : float := S754_zero false.
Definition one : float := S754_finite false 8388608 (-23).

(** The rational a float stands for, in lowest terms; none for an
    infinity or NaN. *)
Definition toQ (x : float) : option Q :=
  match x with
  | S754_zero _ => Some 0%Q
  | S754_finite s m e =>
      Some (Qred ((if s then - inject_Z (Zpos m) else inject_Z (Zpos m)) * Qpower 2 e))%Q
  | S754_infinity _ | S754_nan => None
  end.

End F32.

Declare Scope float_scope.
Delimit Scope float_scope with float.
Bind Scope float_scope with float.

Infix "+" := F32.add : float_scope.
Infix "-" := F32.sub : float_scope.
Infix "*" := F32.mul : float_scope.
Infix "/" := F32.div : float_scope.
Notation "- x" := (F32.opp x) : float_scope.
Infix "<?" := F32.ltb : float_scope.
Infix "<=?" := F32.leb : float_scope.
Infix "=?" := F32.eqb : float_scope.
Notation "x < y" := (F32.ltb x y = true) : float_scope.
Notation "x <= y" := (F32.leb x y = true) : float_scope.
Notation "0" := F32.zero : float_scope.
Notation "1" := F32.one : float_scope.

Open Scope float_scope.

Definition float_of_Z (z : Z) : float := F32.of_Z z.

Definition float_of_nat (n : nat) : float := float_of_Z (Z.of_nat n).

(** [std::numeric_limits<float>::max()], that is (2 - 2^-23) * 2^127. *)
Definition FLT_MAX : float := S754_finite false 16777215 104.

(** A zero, of either sign. *)
Definition isZero (d : float) : bool :=
  match d with S754_zero _ => true | _ => false end.

(** [SFcompare] is the lexicographic order on (class and sign, exponent,
    mantissa), with the last two reversed on the negative side; NaN has no
    rank. *)
Definition rank (x : float) : option (Z * Z * Z) :=
  match x with
  | S754_nan => None
  | S754_infinity true => Some (-2, 0, 0)%Z
  | S754_infinity false => Some (2, 0, 0)%Z
  | S754_zero _ => Some (0, 0, 0)%Z
  | S754_finite true m e => Some (-1, - e, - Zpos m)%Z
  | S754_finite false m e => Some (1, e, Zpos m)%Z
  end.

Definition rank_lt (a b : Z * Z * Z) : Prop :=
  let '(a1, a2, a3) := a in
  let '(b1, b2, b3) := b in
  (a1 < b1 \/ (a1 = b1 /\ (a2 < b2 \/ (a2 = b2 /\ a3 < b3))))%Z.

Definition isNaN (x : float) : bool :=
  match x with S754_nan => true | _ => false end.

(** A zero or NaN: what is left of a product, a sum or a quotient when one
    side is a zero. *)
Definition zeroOrNaN (x : float) : bool := isZero x || isNaN x.

(** ** Eigen vectors and 2 x 2 matrices *)

Record Vector2f := mkV { vx : float; vy : float }.

Definition vzero : Vector2f := mkV 0 0.

Definition vadd (a b : Vector2f) : Vector2f :=
  mkV (vx a + vx b) (vy a + vy b).

Definition vsub (a b : Vector2f) : Vector2f :=
  mkV (vx a - vx b) (vy a - vy b).

Definition vscale (c : float) (a : Vector2f) : Vector2f :=
  mkV (c * vx a) (c * vy a).

(** [a * c], the scalar on the right. *)
Definition vtimes (a : Vector2f) (c : float) : Vector2f :=
  mkV (vx a * c) (vy a * c).

Definition vdivs (a : Vector2f) (c : float) : Vector2f :=
  mkV (vx a / c) (vy a / c).

Definition vsquaredNorm (a : Vector2f) : float :=
  vx a * vx a + vy a * vy a.

Record Matrix2f := mkM { m00 : float; m01 : float; m10 : float; m11 : float }.

Definition mzero : Matrix2f := mkM 0 0 0 0.

Definition midentity : Matrix2f := mkM 1 0 0 1.

Definition mdiag (a b : float) : Matrix2f := mkM a 0 0 b.

Definition mmul (a b : Matrix2f) : Matrix2f :=
  mkM (m00 a * m00 b + m01 a * m10 b) (m00 a * m01 b + m01 a * m11 b)
      (m10 a * m00 b + m11 a * m10 b) (m10 a * m01 b + m11 a * m11 b).

Definition mtranspose (a : Matrix2f) : Matrix2f :=
  mkM (m00 a) (m10 a) (m01 a) (m11 a).

Definition madd (a b : Matrix2f) : Matrix2f :=
  mkM (m00 a + m00 b) (m01 a + m01 b) (m10 a + m10 b) (m11 a + m11 b).

Definition mscale (c : float) (a : Matrix2f) : Matrix2f :=
  mkM (c * m00 a) (c * m01 a) (c * m10 a) (c * m11 a).

Definition mdivs (a : Matrix2f) (c : float) : Matrix2f :=
  mkM (m00 a / c) (m01 a / c) (m10 a / c) (m11 a / c).

Definition mvec (a : Matrix2f) (v : Vector2f) : Vector2f :=
  mkV (m00 a * vx v + m01 a * vy v) (m10 a * vx v + m11 a * vy v).

Definition determinant (a : Matrix2f) : float :=
  m00 a * m11 a - m01 a * m10 a.

Definition trace (a : Matrix2f) : float := m00 a + m11 a.

(** Every entry is a zero or NaN. *)
Definition mzeroOrNaN (m : Matrix2f) : bool :=
  zeroOrNaN (m00 m) && zeroOrNaN (m01 m) && zeroOrNaN (m10 m) && zeroOrNaN (m11 m).

(** [Eigen::AffineCompact2f]: the 2 x 3 matrix [linear | translation]. *)
Record AffineCompact2f := mkAffine { linear : Matrix2f; translation : Vector2f }.

(** ** 2 x L matrices: shapes, residuals, pixel coordinates *)

Definition Shape := list Vector2f.
Definition ShapeResidual := list Vector2f.
Definition PixelCoordinates := list Vector2f.
Definition PixelIntensities := list float.

(** [s.col(i)]; Eigen asserts [0 <= i < cols]. *)
Definition col (s : Shape) (i : Z) : option Vector2f :=
  if (i <? 0)%Z then None else nth_error s (Z.to_nat i).

Fixpoint map2 {A B C} (f : A -> B -> C) (a : list A) (b : list B) : list C :=
  match a, b with
  | x :: a', y :: b' => f x y :: map2 f a' b'
  | _, _ => []
  end.

Definition shape_add (a b : Shape) : Shape := map2 vadd a b.
Definition shape_sub (a b : Shape) : Shape := map2 vsub a b.
Definition shape_scale (c : float) (a : Shape) : Shape := map (vscale c) a.
Definition shape_times (a : Shape) (c : float) : Shape :=
  map (fun p => vtimes p c) a.
Definition shape_divs (a : Shape) (c : float) : Shape :=
  map (fun p => vdivs p c) a.
Definition shape_zero (L : nat) : Shape := repeat vzero L.

(** Sum of a list of 2 x L matrices. *)
Definition shape_sum (L : nat) (l : list Shape) : Shape :=
  fold_left shape_add l (shape_zero L).

(** A coefficient-wise operation of Eigen, defined on equal sizes only. *)
Definition same_size (f : Shape -> Shape -> Shape) (a b : Shape) : option Shape :=
  if Nat.eqb (length a) (length b) then Some (f a b) else None.

(** A reduction of Eigen by a sum: the first term, then the others added
    in order; zero when there is no term. *)
Definition reduce {A} (add : A -> A -> A) (zero : A) (l : list A) : A :=
  match l with
  | [] => zero
  | x :: rest => fold_left add rest x
  end.

(** The sum of the columns: both rows of [rowwise().sum()]. *)
Definition colwise_sum (s : Shape) : Vector2f := reduce vadd vzero s.

(** [squaredNorm()] of a 2 x L matrix: the squares of its coefficients,
    column after column. *)
Definition squaredNorm (s : Shape) : float :=
  reduce F32.add 0 (flat_map (fun p => [vx p * vx p; vy p * vy p]) s).

(** [a * b.transpose()] for two 2 x L matrices: the 2 x 2 matrix of the sums
    over the columns of the outer products. *)
Definition outer (p q : Vector2f) : Matrix2f :=
  mkM (vx p * vx q) (vx p * vy q) (vy p * vx q) (vy p * vy q).

Definition mul_transpose (a b : Shape) : Matrix2f :=
  reduce madd mzero (map2 outer a b).

(** [rowwise().minCoeff()] and [rowwise().maxCoeff()]: the least and the
    greatest coefficient of each row, by [std::min] and [std::max].  Eigen
    asserts on an empty matrix. *)
Definition fminf (a b : float) : float := if b <? a then b else a.
Definition fmaxf (a b : float) : float := if a <? b then b else a.

Definition rowwise_minCoeff (s : Shape) : option Vector2f :=
  match s with
  | [] => None
  | p :: rest =>
      Some (fold_left (fun m q => mkV (fminf (vx m) (vx q)) (fminf (vy m) (vy q)))
                      rest p)
  end.

Definition rowwise_maxCoeff (s : Shape) : option Vector2f :=
  match s with
  | [] => None
  | p :: rest =>
      Some (fold_left (fun m q => mkV (fmaxf (vx m) (vx q)) (fmaxf (vy m) (vy q)))
                      rest p)
  end.

(** ** Working set of the tree trainer ([TreeTraining::Sample]) *)

Record TSample := mkTSample {
  ts_residual : ShapeResidual;
  ts_intensities : PixelIntensities
}.

(** ** Runs: failure and the trace of what a run did *)

(** The places where the two files divide. *)
Inductive DivSite :=
| DivMean             (* rowwise().mean(): sum over the columns / cols *)
| DivCovCount         (* cov /= from.cols() *)
| DivVarianceCount    (* centeredFrom.squaredNorm() / from.cols() *)
| DivSourceVariance   (* 1.f / sFrom *)
| DivSampleCount.     (* meanResidual /= t.samples.size() *)

Inductive Event :=
| Division (site : DivSite) (divisor : float)
| TreeFitCall (k : nat) (working : list TSample).

Definition ExecTrace := list Event.

(** A run either fails (an Eigen assertion, an index out of range, a size
    that cannot be allocated) or returns a value and the events it went
    through, oldest first. *)
Definition Exec (A : Type) : Type := option (A * ExecTrace).

Definition ret {A} (a : A) : Exec A := Some (a, []).

Definition fail {A} : Exec A := None.

Definition bind {A B} (m : Exec A) (f : A -> Exec B) : Exec B :=
  match m with
  | None => None
  | Some (a, l1) =>
      match f a with
      | None => None
      | Some (b, l2) => Some (b, l1 ++ l2)
      end
  end.

Definition lift {A} (o : option A) : Exec A :=
  match o with
  | Some a => Some (a, [])
  | None => None
  end.

Definition emit (e : Event) : Exec unit := Some (tt, [e]).

Declare Scope exec_scope.
Delimit Scope exec_scope with exec.
Notation "x <- m ;; k" := (bind m (fun x => k))
  (at level 61, m at next level, right associativity) : exec_scope.
Notation "' pat <- m ;; k" := (bind m (fun x => match x with pat => k end))
  (at level 61, pat pattern, m at next level, right associativity) : exec_scope.
Open Scope exec_scope.

(** The three shapes a division takes in the source. *)
Definition fdiv (site : DivSite) (a b : float) : Exec float :=
  _ <- emit (Division site b) ;; ret (a / b).

Definition vdiv (site : DivSite) (a : Vector2f) (b : float) : Exec Vector2f :=
  _ <- emit (Division site b) ;; ret (vdivs a b).

Definition mdiv (site : DivSite) (a : Matrix2f) (b : float) : Exec Matrix2f :=
  _ <- emit (Division site b) ;; ret (mdivs a b).

Definition sdiv (site : DivSite) (a : Shape) (b : float) : Exec Shape :=
  _ <- emit (Division site b) ;; ret (shape_divs a b).

(** [rowwise().mean()]: the sum of the columns over their number. *)
Definition rowwise_mean (s : Shape) : Exec Vector2f :=
  vdiv DivMean (colwise_sum s) (float_of_nat (length s)).

(** ** Collaborators

    What [shape.cpp] and [regressor.cpp] use and do not define. *)

(** The result of [cov.jacobiSvd(ComputeFullU | ComputeFullV)]. *)
Record JacobiSVD := mkSVD {
  matrixU : Matrix2f;
  singularValues : float * float;
  matrixV : Matrix2f
}.

Record TrainingParameters := mkParams {
  numCascades : Z;
  numTrees : Z;
  maxTreeDepth : Z;
  numRandomPixelCoordinates : Z;
  numRandomSplitTestsPerNode : Z;
  exponentialLambda : float;
  learningRate : float
}.

(** [TreeTraining], what [fit] hands to [Tree::fit]: the landmark count, the
    training data (a pointer in the source: parameters, shapes, images and
    the random source), the working set and the pixel coordinates. *)
Record TreeTraining (Image Rnd : Type) := mkTreeTraining {
  tt_numLandmarks : Z;
  tt_params : TrainingParameters;
  tt_shapes : list Shape;
  tt_images : list Image;
  tt_rnd : Rnd;
  tt_samples : list TSample;
  tt_pixelCoordinates : PixelCoordinates
}.

Arguments mkTreeTraining {Image Rnd}.
Arguments tt_numLandmarks {Image Rnd}.
Arguments tt_params {Image Rnd}.
Arguments tt_shapes {Image Rnd}.
Arguments tt_images {Image Rnd}.
Arguments tt_rnd {Image Rnd}.
Arguments tt_samples {Image Rnd}.
Arguments tt_pixelCoordinates {Image Rnd}.

Class External := {
  (** [Image] and [readImage(img, coords, intensities)]. *)
  Image : Type;
  readImage : Image -> PixelCoordinates -> PixelIntensities;
  (** The random source [TrainingData::rnd] and one draw of a
      [std::uniform_real_distribution<float>(a, b)] from it. *)
  Rnd : Type;
  uniform_real : float -> float -> Rnd -> float * Rnd;
  (** Eigen's two-sided Jacobi SVD of a 2 x 2 matrix. *)
  jacobiSvd : Matrix2f -> JacobiSVD;
  (** [Tree]: a default-constructed tree, [Tree::predict], and [Tree::fit].
      [Tree::fit] takes its [TreeTraining] by reference: it returns the
      tree, the working set as it leaves it, and the random source as it
      leaves it. *)
  Tree : Type;
  Tree_default : Tree;
  Tree_predict : Tree -> PixelIntensities -> ShapeResidual;
  Tree_fit : Tree -> TreeTraining Image Rnd -> Tree * list TSample * Rnd
}.

(** ** shape.cpp *)

Section ShapeCpp.
Context `{E : External}.

(** The correction matrix [s] of [estimateSimilarityTransform]. *)
Definition reflectionCorrection (cov : Matrix2f) (svd : JacobiSVD) : Matrix2f :=
  let detCov := determinant cov in
  let detUV := determinant (matrixU svd) * determinant (matrixV svd) in
  if (detCov <? 0) || ((detCov =? 0) && (detUV <? 0)) then
    if snd (singularValues svd) <? fst (singularValues svd)
    then mkM 1 0 0 (-(1))
    else mkM (-(1)) 0 0 1
  else midentity.

(** The locals of [estimateSimilarityTransform], kept so that the statements
    about [rot], [c] and [s] can name them. *)
Record Alignment := mkAlignment {
  al_meanFrom : Vector2f;
  al_meanTo : Vector2f;
  al_cov : Matrix2f;
  al_sFrom : float;
  al_svd : JacobiSVD;
  al_d : Matrix2f;
  al_s : Matrix2f;
  al_rot : Matrix2f;
  al_c : float;
  al_t : Vector2f
}.

Definition estimateAlignment (from to : Shape) : Exec Alignment :=
  meanFrom <- rowwise_mean from ;;
  meanTo <- rowwise_mean to ;;
  let centeredFrom := map (fun p => vsub p meanFrom) from in
  let centeredTo := map (fun p => vsub p meanTo) to in
  cov0 <- lift (if Nat.eqb (length centeredFrom) (length centeredTo)
                then Some (mul_transpose centeredFrom centeredTo) else None) ;;
  cov <- mdiv DivCovCount cov0 (float_of_nat (length from)) ;;
  sFrom <- fdiv DivVarianceCount (squaredNorm centeredFrom) (float_of_nat (length from)) ;;
  let svd := jacobiSvd cov in
  let d := mdiag (fst (singularValues svd)) (snd (singularValues svd)) in
  let s := reflectionCorrection cov svd in
  let rot := mmul (mmul (mtranspose (matrixU svd)) s) (matrixV svd) in
  c <- (if 0 <? sFrom
        then q <- fdiv DivSourceVariance 1 sFrom ;; ret (q * trace (mmul d s))
        else ret 1) ;;
  let t := vsub meanTo (mvec (mscale c rot) meanFrom) in
  ret (mkAlignment meanFrom meanTo cov sFrom svd d s rot c t).

(** [estimateSimilarityTransform]: the 2 x 3 matrix [c * rot | t]. *)
Definition estimateSimilarityTransform (from to : Shape) : Exec AffineCompact2f :=
  a <- estimateAlignment from to ;;
  ret (mkAffine (mscale (al_c a) (al_rot a)) (al_t a)).

(** The scan of [findClosestLandmarkIndex]: [i] is the loop counter,
    [bestLandmark] and [bestD2] the two locals. *)
Fixpoint closestScan (cols : list Vector2f) (x : Vector2f)
         (i : Z) (bestLandmark : Z) (bestD2 : float) : Z :=
  match cols with
  | [] => bestLandmark
  | p :: rest =>
      let d2 := vsquaredNorm (vsub p x) in
      if d2 <? bestD2
      then closestScan rest x (i + 1) i d2
      else closestScan rest x (i + 1) bestLandmark bestD2
  end.

(** [findClosestLandmarkIndex].  (The cast of [s.cols()] to [int] is the
    identity for fewer than 2^31 landmarks.) *)
Definition findClosestLandmarkIndex (s : Shape) (x : Vector2f) : Z :=
  closestScan s x 0 (-1) FLT_MAX.

(** Returns [(relcoords, closestLandmarks)]. *)
Fixpoint shapeRelativePixelCoordinates (s : Shape) (abscoords : PixelCoordinates)
  : option (PixelCoordinates * list Z) :=
  match abscoords with
  | [] => Some ([], [])
  | a :: rest =>
      let idx := findClosestLandmarkIndex s a in
      match col s idx with
      | None => None
      | Some p =>
          match shapeRelativePixelCoordinates s rest with
          | None => None
          | Some (relcoords, closestLandmarks) =>
              Some (vsub a p :: relcoords, idx :: closestLandmarks)
          end
      end
  end.

End ShapeCpp.

(** ** regressor.cpp *)

Module Regressor.
Section RegressorCpp.
Context `{E : External}.

(** [Regressor::data]. *)
Record data := mkData {
  d_shapeRelativePixelCoordinates : PixelCoordinates;
  d_closestShapeLandmark : list Z;
  d_meanResidual : ShapeResidual;
  d_meanShape : Shape;
  d_trees : list Tree;
  d_learningRate : float
}.

(** [TrainingData], as far as the regressor reads it. *)
Record TrainingData := mkTrainingData {
  td_params : TrainingParameters;
  td_shapes : list Shape;
  td_images : list Image;
  td_rnd : Rnd
}.

(** One entry of [RegressorTraining::samples]. *)
Record RSample := mkRSample {
  rs_idx : nat;
  rs_estimate : Shape
}.

(** [RegressorTraining]; [trainingData] is a pointer in the source, shared
    with the [TreeTraining] that [fit] builds, so the random source is
    threaded through every call that draws from it. *)
Record RegressorTraining := mkRegressorTraining {
  r_trainingData : TrainingData;
  r_samples : list RSample;
  r_meanShape : Shape;
  r_numLandmarks : Z
}.

(** [std::vector::resize(n)]: the first [n] elements, padded with
    default-constructed ones. *)
Definition resize {A} (n : nat) (def : A) (l : list A) : list A :=
  firstn n l ++ repeat def (n - length l).

(** [v[k] = x] for [k] inside the vector. *)
Fixpoint set_nth {A} (k : nat) (x : A) (l : list A) : list A :=
  match l, k with
  | [], _ => []
  | _ :: l', O => x :: l'
  | y :: l', S k' => y :: set_nth k' x l'
  end.

(** The loop of [sampleCoordinates]: [n] coordinates, two draws each. *)
Fixpoint drawCoordinates (n : nat) (minC maxC : Vector2f) (rnd : Rnd)
  : PixelCoordinates * Rnd :=
  match n with
  | O => ([], rnd)
  | S n' =>
      let '(x, rnd1) := uniform_real 0 (vx maxC - vx minC) rnd in
      let '(y, rnd2) := uniform_real 0 (vy maxC - vy minC) rnd1 in
      let '(rest, rnd3) := drawCoordinates n' minC maxC rnd2 in
      (mkV (vx minC + x) (vy maxC + y) :: rest, rnd3)
  end.

(** [Regressor::sampleCoordinates]; returns the coordinates and the random
    source as the draws leave it. *)
Definition sampleCoordinates (t : RegressorTraining) : Exec (PixelCoordinates * Rnd) :=
  minC <- lift (rowwise_minCoeff (r_meanShape t)) ;;
  maxC <- lift (rowwise_maxCoeff (r_meanShape t)) ;;
  let numCoords := numRandomPixelCoordinates (td_params (r_trainingData t)) in
  if (numCoords <? 0)%Z then fail
  else ret (drawCoordinates (Z.to_nat numCoords) minC maxC (td_rnd (r_trainingData t))).

(** The loop of [readPixelIntensities] that moves every coordinate to its
    anchor landmark. *)
Fixpoint anchorCoordinates (s : Shape) (closest : list Z) (coords : PixelCoordinates)
  : option PixelCoordinates :=
  match coords with
  | [] => Some []
  | c :: coords' =>
      match closest with
      | [] => None
      | i :: closest' =>
          match col s i, anchorCoordinates s closest' coords' with
          | Some p, Some rest => Some (vadd c p :: rest)
          | _, _ => None
          end
      end
  end.

Definition readPixelIntensities (d : data) (t : AffineCompact2f) (s : Shape) (img : Image)
  : option PixelIntensities :=
  let coords := map (mvec (linear t)) (d_shapeRelativePixelCoordinates d) in
  match anchorCoordinates s (d_closestShapeLandmark d) coords with
  | Some coords' => Some (readImage img coords')
  | None => None
  end.

(** The first loop of [fit]: the target residual and the intensities of
    every sample, and the running sum of the residuals. *)
Fixpoint prepareSamples (d : data) (t : RegressorTraining) (samples : list RSample)
         (meanResidual : ShapeResidual) : Exec (ShapeResidual * list TSample) :=
  match samples with
  | [] => ret (meanResidual, [])
  | smp :: rest =>
      let td := r_trainingData t in
      shape <- lift (nth_error (td_shapes td) (rs_idx smp)) ;;
      residual <- lift (same_size shape_sub shape (rs_estimate smp)) ;;
      meanResidual' <- lift (same_size shape_add meanResidual residual) ;;
      trans <- estimateSimilarityTransform (r_meanShape t) (rs_estimate smp) ;;
      img <- lift (nth_error (td_images td) (rs_idx smp)) ;;
      intensities <- lift (readPixelIntensities d trans (rs_estimate smp) img) ;;
      '(total, tsamples) <- prepareSamples d t rest meanResidual' ;;
      ret (total, mkTSample residual intensities :: tsamples)
  end.

(** The inner loop of the boosting loop: what iteration [k] subtracts from
    the working residual of one sample. *)
Definition subtractStep (k : nat) (meanResidual : ShapeResidual) (lr : float)
           (trees : list Tree) (s : TSample) : option TSample :=
  match k with
  | O =>
      match same_size shape_sub (ts_residual s) meanResidual with
      | Some r => Some (mkTSample r (ts_intensities s))
      | None => None
      end
  | S k' =>
      match nth_error trees k' with
      | Some tree =>
          match same_size shape_sub (ts_residual s)
                          (shape_scale lr (Tree_predict tree (ts_intensities s))) with
          | Some r => Some (mkTSample r (ts_intensities s))
          | None => None
          end
      | None => None
      end
  end.

Fixpoint mapM {A B} (f : A -> option B) (l : list A) : option (list B) :=
  match l with
  | [] => Some []
  | x :: l' =>
      match f x, mapM f l' with
      | Some y, Some ys => Some (y :: ys)
      | _, _ => None
      end
  end.

(** What the boosting loop carries from one tree to the next. *)
Record BoostState := mkBoost {
  b_trees : list Tree;
  b_samples : list TSample;
  b_rnd : Rnd
}.

(** The [TreeTraining tt] of [fit], with the working set and the random source
    as they are when a tree is fit. *)
Definition treeTraining (t : RegressorTraining) (pixelCoordinates : PixelCoordinates)
           (working : list TSample) (rnd : Rnd) : TreeTraining Image Rnd :=
  mkTreeTraining (r_numLandmarks t) (td_params (r_trainingData t))
                 (td_shapes (r_trainingData t)) (td_images (r_trainingData t))
                 rnd working pixelCoordinates.

(** Iteration [k] of the boosting loop. *)
Definition boostStep (t : RegressorTraining) (pixelCoordinates : PixelCoordinates)
           (meanResidual : ShapeResidual) (lr : float) (k : nat) (st : BoostState)
  : Exec BoostState :=
  working <- lift (mapM (subtractStep k meanResidual lr (b_trees st)) (b_samples st)) ;;
  tree <- lift (nth_error (b_trees st) k) ;;
  _ <- emit (TreeFitCall k working) ;;
  let '(tree', samples', rnd') :=
    Tree_fit tree (treeTraining t pixelCoordinates working (b_rnd st)) in
  ret (mkBoost (set_nth k tree' (b_trees st)) samples' rnd').

(** Iterations [k], [k + 1], ..., [k + n - 1]. *)
Fixpoint boostLoop (t : RegressorTraining) (pixelCoordinates : PixelCoordinates)
         (meanResidual : ShapeResidual) (lr : float) (n : nat) (k : nat) (st : BoostState)
  : Exec BoostState :=
  match n with
  | O => ret st
  | S n' =>
      st' <- boostStep t pixelCoordinates meanResidual lr k st ;;
      boostLoop t pixelCoordinates meanResidual lr n' (S k) st'
  end.

(** What [fit] leaves behind: its return value, the regressor's state and the
    random source of the training data. *)
Record FitResult := mkFitResult {
  fit_return : bool;
  fit_data : data;
  fit_rnd : Rnd
}.

(** [Regressor::fit].  The source assigns to the fields of [data] as it
    goes; the model collects the assignments in the state it returns.  A
    negative [numTrees] makes [resize] throw and a negative [numLandmarks]
    makes [ShapeResidual::Zero] assert: those runs fail. *)
Definition fit (d : data) (t : RegressorTraining) : Exec FitResult :=
  let td := r_trainingData t in
  let params := td_params td in
  if (numTrees params <? 0)%Z then fail else
  let K := Z.to_nat (numTrees params) in
  let lr := learningRate params in
  let trees0 := resize K Tree_default (d_trees d) in
  '(pixelCoordinates, rnd1) <- sampleCoordinates t ;;
  '(relcoords, closest) <- lift (shapeRelativePixelCoordinates (r_meanShape t) pixelCoordinates) ;;
  let d1 := mkData relcoords closest (d_meanResidual d) (r_meanShape t) trees0 lr in
  if (r_numLandmarks t <? 0)%Z then fail else
  let zero := shape_zero (Z.to_nat (r_numLandmarks t)) in
  '(total, tsamples) <- prepareSamples d1 t (r_samples t) zero ;;
  meanResidual <- sdiv DivSampleCount total (float_of_nat (length (r_samples t))) ;;
  st <- boostLoop t pixelCoordinates meanResidual lr K 0 (mkBoost trees0 tsamples rnd1) ;;
  ret (mkFitResult false
         (mkData relcoords closest meanResidual (r_meanShape t) (b_trees st) lr)
         (b_rnd st)).

(** The loop of [predict]. *)
Fixpoint accumulate (lr : float) (intensities : PixelIntensities) (trees : list Tree)
         (sr : ShapeResidual) : option ShapeResidual :=
  match trees with
  | [] => Some sr
  | tree :: trees' =>
      match same_size shape_add sr (shape_times (Tree_predict tree intensities) lr) with
      | Some sr' => accumulate lr intensities trees' sr'
      | None => None
      end
  end.

(** [Regressor::predict]. *)
Definition predict (d : data) (img : Image) (shape : Shape) : Exec ShapeResidual :=
  trans <- estimateSimilarityTransform (d_meanShape d) shape ;;
  intensities <- lift (readPixelIntensities d trans shape img) ;;
  lift (accumulate (d_learningRate d) intensities (d_trees d) (d_meanResidual d)).

End RegressorCpp.
End Regressor.
(** ** Transformed shapes, traces and anchors *)

(** A trace in which no division has a zero divisor. *)
Definition divisorsNonZero (tr : ExecTrace) : Prop :=
  forall site d, In (Division site d) tr -> isZero d = false.

(** The tree indices of the calls of [Tree::fit] in a trace, oldest first. *)
Fixpoint fitCalls (tr : ExecTrace) : list nat :=
  match tr with
  | [] => []
  | TreeFitCall k _ :: rest => k :: fitCalls rest
  | Division _ _ :: rest => fitCalls rest
  end.

(** Every anchor is the index of a column of a shape of [L] landmarks. *)
Definition anchorsWithin (L : nat) (closest : list Z) : Prop :=
  Forall (fun i => (0 <= i < Z.of_nat L)%Z) closest.

(** ** A concrete set of collaborators

    Small stand-ins for the code the two files call, so that the model can
    be run on examples: a linear-ramp image, a tree that is a single leaf
    holding the mean residual of its working set (and that hands the working
    set back in reverse order, as a trainer that partitions it in place
    may), a random source that replays a list of fractions of the interval,
    and the decomposition a Jacobi SVD reaches without any rotation, which
    is exact on the diagonal matrices the examples use. *)

Module Bench.

(** The float nearest to [n / d]. *)
Definition q (n : Z) (d : positive) : float := float_of_Z n / float_of_Z (Zpos d).

Record RampImage := mkRamp { ramp_x : float; ramp_y : float; ramp_0 : float }.

Definition readRamp (img : RampImage) (coords : PixelCoordinates) : PixelIntensities :=
  map (fun p => ramp_x img * vx p + ramp_y img * vy p + ramp_0 img) coords.

Definition replay (a b : float) (rnd : list float) : float * list float :=
  match rnd with
  | u :: rest => (a + u * (b - a), rest)
  | [] => (a, [])
  end.

Definition fabsf (a : float) : float := if a <? 0 then - a else a.
Definition signf (a : float) : float := if a <? 0 then -(1) else 1.

Definition diagonalSvd (m : Matrix2f) : JacobiSVD :=
  let sa := fabsf (m00 m) in
  let sb := fabsf (m11 m) in
  let ua := signf (m00 m) in
  let ub := signf (m11 m) in
  if sa <? sb
  then mkSVD (mkM 0 ua ub 0) (sb, sa) (mkM 0 1 1 0)
  else mkSVD (mkM ua 0 0 ub) (sa, sb) midentity.

Inductive BenchTree :=
| Leaf (residual : ShapeResidual)
| Split (i j : nat) (threshold : float) (yes no : BenchTree).

Fixpoint walk (tree : BenchTree) (intensities : PixelIntensities) : ShapeResidual :=
  match tree with
  | Leaf r => r
  | Split i j threshold yes no =>
      if threshold <? nth i intensities 0 - nth j intensities 0
      then walk yes intensities
      else walk no intensities
  end.

Definition fitLeaf (self : BenchTree) (tt : TreeTraining RampImage (list float))
  : BenchTree * list TSample * list float :=
  (Leaf (shape_divs (shape_sum (Z.to_nat (tt_numLandmarks tt))
                               (map ts_residual (tt_samples tt)))
                    (float_of_nat (length (tt_samples tt)))),
   rev (tt_samples tt), tt_rnd tt).

#[export] Instance bench : External := {|
  Image := RampImage;
  readImage := readRamp;
  Rnd := list float;
  uniform_real := replay;
  jacobiSvd := diagonalSvd;
  Tree := BenchTree;
  Tree_default := Leaf [];
  Tree_predict := walk;
  Tree_fit := fitLeaf
|}.

(** A trainer whose tree is always the same leaf, whatever the working
    set: every tree it builds predicts the residual [[(2^-24, 0)]]. *)
Definition tiny : float := q 1 16777216.

Definition fitConstant (self : BenchTree) (tt : TreeTraining RampImage (list float))
  : BenchTree * list TSample * list float :=
  (Leaf [mkV tiny 0], rev (tt_samples tt), tt_rnd tt).

Definition benchConstant : External := {|
  Image := RampImage;
  readImage := readRamp;
  Rnd := list float;
  uniform_real := replay;
  jacobiSvd := diagonalSvd;
  Tree := BenchTree;
  Tree_default := Leaf [];
  Tree_predict := walk;
  Tree_fit := fitConstant
|}.

(** The float nearest to the square root of 1/2, that is 11863283 * 2^-24. *)
Definition invSqrt2 : float := S754_finite false 11863283 (-24).





(** Shapes. *)
Definition kite : Shape := [mkV 1 0; mkV 0 (q 2 1); mkV (-(1)) 0; mkV 0 (q (-2) 1)].
Definition kiteMirrored : Shape :=
  [mkV (-(1)) 0; mkV 0 (q 2 1); mkV 1 0; mkV 0 (q (-2) 1)].
Definition kiteShifted : Shape :=
  [mkV (q 3 2) 0; mkV (q 1 2) (q 2 1); mkV (q (-1) 2) 0; mkV (q 1 2) (q (-2) 1)].
Definition diagonalPair : Shape := [mkV 0 0; mkV 1 1].
Definition coincident : Shape := [mkV (q 3 1) (q 5 1); mkV (q 3 1) (q 5 1)].
Definition farAway : Vector2f := mkV (float_of_Z (2 ^ 64)) 0.
Definition kiteFlat : Shape :=
  [mkV (q 2 1) 0; mkV 0 1; mkV (q (-2) 1) 0; mkV 0 (-(1))].
Definition thrice (p : Vector2f) : Shape := [p; p; p].

(** A training run: two samples of the same image, two trees. *)
Definition params (trees coords : Z) : TrainingParameters :=
  mkParams 1 trees 0 coords 1 (q 1 10) (q 1 2).

Definition trainingData (trees coords : Z) : Regressor.TrainingData :=
  Regressor.mkTrainingData (params trees coords) [kite] [mkRamp 1 (q 2 1) (q 3 1)]
    [q 1 2; q 1 2; q 1 4; q 3 4].

Definition training : Regressor.RegressorTraining :=
  Regressor.mkRegressorTraining (trainingData 2 2)
    [Regressor.mkRSample 0 kiteShifted; Regressor.mkRSample 0 kiteMirrored] kite 4.

Definition trainingNoSamples : Regressor.RegressorTraining :=
  Regressor.mkRegressorTraining (trainingData 2 2) [] kite 4.

Definition sampling : Regressor.RegressorTraining :=
  Regressor.mkRegressorTraining (trainingData 1 1) [] diagonalPair 2.

Definition untrained : Regressor.data :=
  Regressor.mkData [] [] [] [] [] 0.

Definition trained : Regressor.data :=
  Regressor.mkData [mkV (q 1 2) 0; mkV 0 (q 1 2)] [0%Z; 1%Z]
    [mkV 1 1; mkV 1 1; mkV 1 1; mkV 1 1] kite
    [Leaf [mkV (q 1 2) 0; mkV 0 0; mkV 0 0; mkV 0 0];
     Split 0 1 0 (Leaf [mkV 0 1; mkV 0 1; mkV 0 1; mkV 0 1])
                 (Leaf [mkV 0 0; mkV 0 0; mkV 0 0; mkV 0 (q 4 1)])]
    (q 1 2).

(** A regressor state that differs from [untrained] in every field but the
    trees. *)
Definition anchored : Regressor.data :=
  Regressor.mkData [mkV 0 (-(1)); mkV (q (-1) 2) 0] [1%Z; 0%Z] [] kite [] (q 1 2).

(** A regressor with two trees that both predict [[(2^-24, 0)]], mean
    residual [[(1, 0)]] and learning rate 1, on one landmark. *)
Definition tinyLeaves : Regressor.data :=
  Regressor.mkData [] [] [mkV 1 0] [mkV 0 0]
    [Leaf [mkV tiny 0]; Leaf [mkV tiny 0]] 1.

(** A training run of three trees with learning rate 1 on one landmark: two
    samples, of initial residuals [[(-2, 0)]] and [[(0, 0)]]. *)
Definition trainingTiny : Regressor.RegressorTraining (E := benchConstant) :=
  Regressor.mkRegressorTraining (E := benchConstant)
    (Regressor.mkTrainingData (E := benchConstant)
       (mkParams 1 3 0 0 1 (q 1 10) 1) [[mkV 0 0]] [mkRamp 1 1 1] [])
    [Regressor.mkRSample 0 [mkV (q 2 1) 0]; Regressor.mkRSample 0 [mkV 0 0]]
    [mkV 0 0] 1.

Definition untrainedConstant : Regressor.data (E := benchConstant) :=
  Regressor.mkData (E := benchConstant) [] [] [] [] [] 0.

(** The runs the examples below refer to, evaluated. *)
Definition trainingRun := Eval vm_compute in Regressor.fit untrained training.
Definition noSamplesRun := Eval vm_compute in Regressor.fit untrained trainingNoSamples.
Definition samplingRun := Eval vm_compute in Regressor.sampleCoordinates sampling.
Definition mirrorRun := Eval vm_compute in estimateAlignment kite kiteMirrored.
Definition mirrorTransformRun :=
  Eval vm_compute in estimateSimilarityTransform kite kiteMirrored.
Definition predictRun :=
  Eval vm_compute in Regressor.predict trained (mkRamp 1 1 1) kiteShifted.

Definition tinyPredictRun :=
  Eval vm_compute in Regressor.predict tinyLeaves (mkRamp 1 1 1) [mkV 0 0].
Definition tinyTrainingRun :=
  Eval vm_compute in Regressor.fit (E := benchConstant) untrainedConstant trainingTiny.
Definition thriceRun :=
  Eval vm_compute in estimateAlignment (thrice (mkV (q 17 10) 0)) (thrice (mkV 0 0)).
Definition coincidentRun := Eval vm_compute in estimateAlignment coincident diagonalPair.

End Bench.

(** ** Vocabulary of the statements *)

(** The squared distance the scan compares, as the code computes it: the
    rounded sum of the rounded squares of the rounded differences. *)
Definition dist2 (x p : Vector2f) : float := vsquaredNorm (vsub p x).

(** The events of a trace that are divisions. *)
Definition isDivision (e : Event) : Prop :=
  match e with Division _ _ => True | TreeFitCall _ _ => False end.

(** Both coordinates are zeros. *)
Definition isZeroVector (p : Vector2f) : bool := isZero (vx p) && isZero (vy p).

Section Vocabulary.
Context `{E : External}.

(** The initial target of one training sample: ground truth minus current
    estimate, and the intensities read under the transform from the mean
    shape to the estimate. *)
Definition initialTarget (d : Regressor.data) (t : Regressor.RegressorTraining)
           (smp : Regressor.RSample) (s0 : TSample) : Prop :=
  exists (groundTruth : Shape) (img : Image) (trans : AffineCompact2f) (tre : ExecTrace),
    nth_error (Regressor.td_shapes (Regressor.r_trainingData t)) (Regressor.rs_idx smp)
    = Some groundTruth /\
    length groundTruth = length (Regressor.rs_estimate smp) /\
    ts_residual s0 = shape_sub groundTruth (Regressor.rs_estimate smp) /\
    nth_error (Regressor.td_images (Regressor.r_trainingData t)) (Regressor.rs_idx smp)
    = Some img /\
    estimateSimilarityTransform (Regressor.r_meanShape t) (Regressor.rs_estimate smp)
    = Some (trans, tre) /\
    Regressor.readPixelIntensities d trans (Regressor.rs_estimate smp) img
    = Some (ts_intensities s0).

(** What the loop of [predict] leaves in [sr] after the trees of a list:
    [sr + t(I) * lr] for one tree after the other, every sum and product
    rounded. *)
Definition accumulated (lr : float) (intensities : PixelIntensities) (trees : list Tree)
           (sr : ShapeResidual) : ShapeResidual :=
  fold_left (fun acc tree => shape_add acc (shape_times (Tree_predict tree intensities) lr))
            trees sr.

(** The working sample that tree [k] is fit on, for the initial sample
    [s0]: the subtractions of the iterations 0 to [k] applied one after
    the other, the mean residual first, then [lr * t(I)] for every tree
    before [k] in turn, every difference and product rounded. *)
Definition boosted (meanResidual : ShapeResidual) (lr : float) (trees : list Tree)
           (k : nat) (s0 : TSample) : TSample :=
  mkTSample
    (fold_left
       (fun r tree => shape_sub r (shape_scale lr (Tree_predict tree (ts_intensities s0))))
       (firstn k trees)
       (shape_sub (ts_residual s0) meanResidual))
    (ts_intensities s0).

(** The working sample at the start of iteration [k] of the boosting loop,
    before the subtraction of that iteration. *)
Definition carried (meanResidual : ShapeResidual) (lr : float) (trees : list Tree)
           (k : nat) (s0 : TSample) : TSample :=
  match k with
  | O => s0
  | S j => boosted meanResidual lr trees j s0
  end.

(** What is assumed of [Tree::fit], whose source is not part of the two
    files: it may reorder the working set it is given (a trainer that
    partitions the samples in place does), and leaves every working sample
    as it is. *)
Definition keepsWorkingSet : Prop :=
  forall (tree : Tree) (tt : TreeTraining Image Rnd),
    Permutation (snd (fst (Tree_fit tree tt))) (tt_samples tt).


End Vocabulary.
(** * Properties *)

(** ** The order on floats *)

Lemma ltb_rank (a b : float) :
  a < b <-> exists ka kb, rank a = Some ka /\ rank b = Some kb /\ rank_lt ka kb.
Proof.
  unfold F32.ltb, SFltb.
  destruct a as [sa|sa| |sa ma ea], b as [sb|sb| |sb mb eb];
    try destruct sa; try destruct sb; cbn [SFcompare rank];
    try (split; [discriminate | intros (ka & kb & Ha & Hb & H); discriminate]);
    try (split; [discriminate
                | intros (ka & kb & [= <-] & [= <-] & H); unfold rank_lt in H; lia]);
    try (split; [intros _; do 2 eexists; repeat split; unfold rank_lt; lia
                | reflexivity]).
  - change (Pos.compare_cont Eq ma mb) with (Pos.compare ma mb).
    destruct (Z.compare_spec ea eb) as [He|He|He];
      [destruct (Pos.compare_spec ma mb) as [Hm|Hm|Hm]| |]; cbn [CompOpp];
      (split; [try discriminate; intros _; do 2 eexists; repeat split;
               unfold rank_lt; lia
              | intros (ka & kb & [= <-] & [= <-] & H); unfold rank_lt in H;
                try reflexivity; lia]).
  - change (Pos.compare_cont Eq ma mb) with (Pos.compare ma mb).
    destruct (Z.compare_spec ea eb) as [He|He|He];
      [destruct (Pos.compare_spec ma mb) as [Hm|Hm|Hm]| |];
      (split; [try discriminate; intros _; do 2 eexists; repeat split;
               unfold rank_lt; lia
              | intros (ka & kb & [= <-] & [= <-] & H); unfold rank_lt in H;
                try reflexivity; lia]).
Qed.

Lemma leb_rank (a b : float) :
  a <= b <-> exists ka kb, rank a = Some ka /\ rank b = Some kb /\ ~ rank_lt kb ka.
Proof.
  unfold F32.leb, SFleb.
  destruct a as [sa|sa| |sa ma ea], b as [sb|sb| |sb mb eb];
    try destruct sa; try destruct sb; cbn [SFcompare rank];
    try (split; [discriminate | intros (ka & kb & Ha & Hb & H); discriminate]);
    try (split; [discriminate
                | intros (ka & kb & [= <-] & [= <-] & H); unfold rank_lt in H; lia]);
    try (split; [intros _; do 2 eexists; repeat split; unfold rank_lt; lia
                | reflexivity]).
  - change (Pos.compare_cont Eq ma mb) with (Pos.compare ma mb).
    destruct (Z.compare_spec ea eb) as [He|He|He];
      [destruct (Pos.compare_spec ma mb) as [Hm|Hm|Hm]| |]; cbn [CompOpp];
      (split; [try discriminate; intros _; do 2 eexists; repeat split;
               unfold rank_lt; lia
              | intros (ka & kb & [= <-] & [= <-] & H); unfold rank_lt in H;
                try reflexivity; lia]).
  - change (Pos.compare_cont Eq ma mb) with (Pos.compare ma mb).
    destruct (Z.compare_spec ea eb) as [He|He|He];
      [destruct (Pos.compare_spec ma mb) as [Hm|Hm|Hm]| |];
      (split; [try discriminate; intros _; do 2 eexists; repeat split;
               unfold rank_lt; lia
              | intros (ka & kb & [= <-] & [= <-] & H); unfold rank_lt in H;
                try reflexivity; lia]).
Qed.

Lemma rank_lt_trans (a b c : Z * Z * Z) : rank_lt a b -> rank_lt b c -> rank_lt a c.
Proof.
  destruct a as [[a1 a2] a3], b as [[b1 b2] b3], c as [[c1 c2] c3].
  unfold rank_lt. lia.
Qed.

Lemma rank_lt_irrefl (a : Z * Z * Z) : ~ rank_lt a a.
Proof. destruct a as [[a1 a2] a3]. unfold rank_lt. lia. Qed.

Lemma ltb_trans (a b c : float) : a < b -> b < c -> a < c.
Proof.
  rewrite !ltb_rank.
  intros (ka & kb & Ha & Hb & H1) (kb' & kc & Hb' & Hc & H2).
  exists ka, kc. repeat split; auto.
  apply rank_lt_trans with kb; [exact H1 | congruence].
Qed.

(** When [a < b], nothing that is not below [b] is below or equal to
    [a]. *)
Lemma ltb_pushes_up (a b c : float) : a < b -> (c <? b) = false -> (c <=? a) = false.
Proof.
  intros Hab Hcb. destruct (c <=? a) eqn:Hca; [|reflexivity].
  apply ltb_rank in Hab. destruct Hab as (ka & kb & Ha & Hb & Hlt).
  apply leb_rank in Hca. destruct Hca as (kc & ka' & Hc & Ha' & Hle).
  assert (Hcb' : c < b).
  { apply ltb_rank. exists kc, kb. repeat split; auto.
    replace ka' with ka in Hle by congruence.
    destruct ka as [[a1 a2] a3], kb as [[b1 b2] b3], kc as [[c1 c2] c3].
    unfold rank_lt in *. lia. }
  congruence.
Qed.

Lemma leb_false_ltb_false (a b : float) : (a <=? b) = false -> (a <? b) = false.
Proof.
  unfold F32.leb, F32.ltb, SFleb, SFltb.
  destruct (SFcompare a b) as [[| |]|]; auto; discriminate.
Qed.

Lemma ltb_irrefl (a : float) : (a <? a) = false.
Proof.
  destruct (a <? a) eqn:H; [|reflexivity].
  apply ltb_rank in H. destruct H as (ka & kb & Ha & Hb & H).
  replace kb with ka in H by congruence. now apply rank_lt_irrefl in H.
Qed.

Lemma ltb_zero_nonzero (x : float) : 0 < x -> isZero x = false.
Proof. destruct x; try reflexivity; discriminate. Qed.

(** ** findClosestLandmarkIndex *)

(** What the scan returns, for any value of its three loop variables: the
    best so far when no later column is below [bestD2], otherwise the first
    column among those no other column is below. *)
Lemma closestScan_spec (x : Vector2f) (cols : list Vector2f) :
  forall (i best : Z) (bestD2 : float),
    (closestScan cols x i best bestD2 = best /\
     forall p, In p cols -> (dist2 x p <? bestD2) = false)
    \/
    (exists (j : nat) (p : Vector2f),
        nth_error cols j = Some p /\
        closestScan cols x i best bestD2 = (i + Z.of_nat j)%Z /\
        dist2 x p < bestD2 /\
        (forall j' p', nth_error cols j' = Some p' -> (dist2 x p' <? dist2 x p) = false) /\
        (forall j' p', (j' < j)%nat -> nth_error cols j' = Some p' ->
                       (dist2 x p' <=? dist2 x p) = false)).
Proof.
  induction cols as [|c rest IH]; intros i best bestD2; simpl.
  - left. split; [reflexivity | intros p []].
  - fold (dist2 x c). destruct (dist2 x c <? bestD2) eqn:Hlt.
    + right.
      destruct (IH (i + 1)%Z i (dist2 x c))
        as [[Hr Hall] | (j & p & Hj & Hr & Hd & Hmin & Hfirst)].
      * exists 0%nat, c. repeat split.
        -- rewrite Hr. lia.
        -- exact Hlt.
        -- intros [|j'] p' Hp'; simpl in Hp'.
           ++ injection Hp' as <-. apply ltb_irrefl.
           ++ apply Hall. eapply nth_error_In; eauto.
        -- intros j' p' Hj'. lia.
      * assert (Hc : (dist2 x c <=? dist2 x p) = false)
          by (apply (ltb_pushes_up _ _ _ Hd), ltb_irrefl).
        exists (S j), p. repeat split.
        -- exact Hj.
        -- rewrite Hr. lia.
        -- eapply ltb_trans; eauto.
        -- intros [|j'] p' Hp'; simpl in Hp'.
           ++ injection Hp' as <-. apply leb_false_ltb_false. exact Hc.
           ++ eapply Hmin; eauto.
        -- intros [|j'] p' Hlt' Hp'; simpl in Hp'.
           ++ injection Hp' as <-. exact Hc.
           ++ eapply Hfirst; eauto. lia.
    + destruct (IH (i + 1)%Z best bestD2)
        as [[Hr Hall] | (j & p & Hj & Hr & Hd & Hmin & Hfirst)].
      * left. split; [exact Hr|]. intros p [<- | Hin]; auto.
      * assert (Hc : (dist2 x c <=? dist2 x p) = false)
          by (apply (ltb_pushes_up _ _ _ Hd), Hlt).
        right. exists (S j), p. repeat split.
        -- exact Hj.
        -- rewrite Hr. lia.
        -- exact Hd.
        -- intros [|j'] p' Hp'; simpl in Hp'.
           ++ injection Hp' as <-. apply leb_false_ltb_false. exact Hc.
           ++ eapply Hmin; eauto.
        -- intros [|j'] p' Hlt' Hp'; simpl in Hp'.
           ++ injection Hp' as <-. exact Hc.
           ++ eapply Hfirst; eauto. lia.
Qed.

(** When no landmark is below the initial [bestD2], the initial
    [bestLandmark] comes back. *)
Lemma findClosestLandmarkIndex_none (s : Shape) (x : Vector2f) :
  (forall p, In p s -> (dist2 x p <? FLT_MAX) = false) ->
  findClosestLandmarkIndex s x = (-1)%Z.
Proof.
  intros Hall. unfold findClosestLandmarkIndex.
  destruct (closestScan_spec x s 0 (-1) FLT_MAX) as [[Hr _] | (j & p & Hj & _ & Hd & _)].
  - exact Hr.
  - apply nth_error_In in Hj. rewrite (Hall p Hj) in Hd. discriminate.
Qed.

Lemma findClosestLandmarkIndex_some (s : Shape) (x : Vector2f) :
  (exists p, In p s /\ dist2 x p < FLT_MAX) ->
  exists (i : nat) (p : Vector2f),
    findClosestLandmarkIndex s x = Z.of_nat i /\
    nth_error s i = Some p /\
    dist2 x p < FLT_MAX /\
    (forall j q, nth_error s j = Some q -> (dist2 x q <? dist2 x p) = false) /\
    (forall j q, (j < i)%nat -> nth_error s j = Some q -> (dist2 x q <=? dist2 x p) = false).
Proof.
  intros (p0 & Hin & Hclose). unfold findClosestLandmarkIndex.
  destruct (closestScan_spec x s 0 (-1) FLT_MAX)
    as [[_ Hall] | (j & p & Hj & Hr & Hd & Hmin & Hfirst)].
  - rewrite (Hall p0 Hin) in Hclose. discriminate.
  - exists j, p. repeat split; auto.
Qed.

Lemma findClosestLandmarkIndex_col (s : Shape) (x : Vector2f) :
  (exists p, In p s /\ dist2 x p < FLT_MAX) ->
  exists (i : nat) (p : Vector2f),
    findClosestLandmarkIndex s x = Z.of_nat i /\
    (i < length s)%nat /\
    col s (findClosestLandmarkIndex s x) = Some p /\
    nth_error s i = Some p.
Proof.
  intros H. destruct (findClosestLandmarkIndex_some s x H) as (i & p & Hr & Hi & _).
  exists i, p. rewrite Hr. repeat split; auto.
  - apply nth_error_Some. congruence.
  - unfold col. destruct (Z.of_nat i <? 0)%Z eqn:Hneg; [lia|]. now rewrite Nat2Z.id.
Qed.

Lemma landmark_within_reach (s : Shape) (x : Vector2f) :
  (forall p, In p s -> (dist2 x p <? FLT_MAX) = false)
  \/ (exists p, In p s /\ dist2 x p < FLT_MAX).
Proof.
  destruct (closestScan_spec x s 0 (-1) FLT_MAX) as [[_ H] | (j & p & Hj & _ & Hlt & _)].
  - left; exact H.
  - right; exists p; split; [eapply nth_error_In; eauto | exact Hlt].
Qed.

(** C8, counterexample: one landmark at the origin and a query point at
    (2^64, 0).  The squared distance overflows to infinity, which is not
    below [std::numeric_limits<float>::max()], so no column ever replaces
    the initial [bestLandmark = -1], which is not an index of the shape. *)
Lemma findClosestLandmarkIndex_far_query :
  ~ (0 <= findClosestLandmarkIndex [vzero] Bench.farAway < Z.of_nat (length [vzero]))%Z.
Proof. vm_compute. intros [H _]. apply H. reflexivity. Qed.

(** The distances the scan compares are rounded.  With the landmarks
    (4097, 1/2) and (4097, 0) and the query at the origin, both squared
    distances round to 16785408: the scan keeps landmark 0, although
    landmark 1 is the nearer one, by 1/4, in exact arithmetic. *)
Lemma findClosestLandmarkIndex_rounded_tie :
  let s := [mkV (Bench.q 4097 1) (Bench.q 1 2); mkV (Bench.q 4097 1) 0] in
  findClosestLandmarkIndex s vzero = 0%Z /\
  dist2 vzero (mkV (Bench.q 4097 1) (Bench.q 1 2)) = float_of_Z 16785408 /\
  dist2 vzero (mkV (Bench.q 4097 1) 0) = float_of_Z 16785408 /\
  F32.toQ (Bench.q 4097 1) = Some (4097 # 1)%Q /\
  F32.toQ (Bench.q 1 2) = Some (1 # 2)%Q /\
  ((4097 # 1) * (4097 # 1) + 0 * 0 < (4097 # 1) * (4097 # 1) + (1 # 2) * (1 # 2))%Q.
Proof. cbv zeta. repeat split; vm_compute; reflexivity. Qed.

(** C8, as amended: for every shape and query point such that some landmark
    is at a squared distance below [std::numeric_limits<float>::max()] (so
    the shape has at least one landmark), [findClosestLandmarkIndex] returns
    an index [i] in [0, L); among the squared distances as the code computes
    them, in rounded float arithmetic, none is below that of landmark [i],
    and that of a landmark of lower index is neither below nor equal to
    it. *)
Theorem findClosestLandmarkIndex_first_nearest (s : Shape) (x : Vector2f) :
  (exists p, In p s /\ vsquaredNorm (vsub p x) < FLT_MAX) ->
  exists (i : nat) (p : Vector2f),
    findClosestLandmarkIndex s x = Z.of_nat i /\
    (0 <= findClosestLandmarkIndex s x < Z.of_nat (length s))%Z /\
    col s (findClosestLandmarkIndex s x) = Some p /\
    vsquaredNorm (vsub p x) < FLT_MAX /\
    (forall j q, nth_error s j = Some q ->
                 (vsquaredNorm (vsub q x) <? vsquaredNorm (vsub p x)) = false) /\
    (forall j q, (j < i)%nat -> nth_error s j = Some q ->
                 (vsquaredNorm (vsub q x) <=? vsquaredNorm (vsub p x)) = false).
Proof.
  intros H.
  destruct (findClosestLandmarkIndex_some s x H) as (i & p & Hr & Hi & Hd & Hmin & Hfirst).
  exists i, p. rewrite Hr. repeat split.
  - lia.
  - apply Nat2Z.inj_lt. apply nth_error_Some. congruence.
  - unfold col. destruct (Z.of_nat i <? 0)%Z eqn:Hneg; [lia|]. now rewrite Nat2Z.id.
  - exact Hd.
  - exact Hmin.
  - exact Hfirst.
Qed.

Lemma findClosestLandmarkIndex_first_nearest_witness :
  (exists p, In p Bench.kite /\ vsquaredNorm (vsub p (mkV 0 1)) < FLT_MAX) /\
  exists (i : nat) (p : Vector2f),
    findClosestLandmarkIndex Bench.kite (mkV 0 1) = Z.of_nat i /\
    (0 <= findClosestLandmarkIndex Bench.kite (mkV 0 1) < Z.of_nat (length Bench.kite))%Z /\
    col Bench.kite (findClosestLandmarkIndex Bench.kite (mkV 0 1)) = Some p /\
    vsquaredNorm (vsub p (mkV 0 1)) < FLT_MAX /\
    (forall j q, nth_error Bench.kite j = Some q ->
                 (vsquaredNorm (vsub q (mkV 0 1)) <? vsquaredNorm (vsub p (mkV 0 1))) = false) /\
    (forall j q, (j < i)%nat -> nth_error Bench.kite j = Some q ->
                 (vsquaredNorm (vsub q (mkV 0 1)) <=? vsquaredNorm (vsub p (mkV 0 1))) = false).
Proof.
  assert (H : exists p, In p Bench.kite /\ vsquaredNorm (vsub p (mkV 0 1)) < FLT_MAX).
  { exists (mkV 1 0). split; [left; reflexivity | vm_compute; reflexivity]. }
  split; [exact H | exact (findClosestLandmarkIndex_first_nearest Bench.kite (mkV 0 1) H)].
Defined.

(** ** shapeRelativePixelCoordinates *)

(** C10, counterexample: a shape with one landmark at the origin and the
    absolute coordinate (2^64, 0).  [findClosestLandmarkIndex] returns -1
    there, [s.col(-1)] is outside the shape, and no pair of arrays is
    produced. *)
Lemma shapeRelativePixelCoordinates_far_coordinate :
  [vzero] <> [] /\
  ~ exists relcoords closestLandmarks,
      shapeRelativePixelCoordinates [vzero] [Bench.farAway]
      = Some (relcoords, closestLandmarks).
Proof.
  split; [discriminate|]. intros (r & c & H). vm_compute in H. discriminate.
Qed.

(** The offset is a rounded difference, and adding the landmark back is
    rounded again.  With one landmark at (1, 1) and the absolute coordinate
    (2^-30, 0) the stored offset is (-1, -1), and offset plus landmark is
    (0, 0), not the coordinate. *)
Lemma shapeRelativePixelCoordinates_rounded_offset :
  let a := mkV (Bench.q 1 1073741824) 0 in
  shapeRelativePixelCoordinates [mkV 1 1] [a] = Some ([mkV (-(1)) (-(1))], [0%Z]) /\
  vadd (mkV (-(1)) (-(1))) (mkV 1 1) = vzero /\
  vzero <> a.
Proof. cbv zeta. repeat split; try (vm_compute; reflexivity). discriminate. Qed.

(** C10, as amended: for every shape [s] and every sequence of absolute
    coordinates each of which has some landmark of [s] at a squared distance
    below [std::numeric_limits<float>::max()], [shapeRelativePixelCoordinates]
    produces relative-coordinate and anchor-index arrays of the length of the
    input; at every position the anchor is the index that
    [findClosestLandmarkIndex] returns, it is a column of [s], and the
    relative coordinate is the float difference of the absolute coordinate
    and that column. *)
Theorem shapeRelativePixelCoordinates_reconstructs (s : Shape) (abscoords : PixelCoordinates) :
  (forall a, In a abscoords ->
             exists p, In p s /\ vsquaredNorm (vsub p a) < FLT_MAX) ->
  exists relcoords closestLandmarks,
    shapeRelativePixelCoordinates s abscoords = Some (relcoords, closestLandmarks) /\
    length relcoords = length abscoords /\
    length closestLandmarks = length abscoords /\
    forall i a, nth_error abscoords i = Some a ->
      exists r c p,
        nth_error relcoords i = Some r /\
        nth_error closestLandmarks i = Some c /\
        c = findClosestLandmarkIndex s a /\
        (0 <= c < Z.of_nat (length s))%Z /\
        col s c = Some p /\
        r = vsub a p.
Proof.
  induction abscoords as [|a rest IH]; intros Hnear.
  - exists [], []. repeat split; auto. intros [|i] a H; discriminate.
  - destruct IH as (rel & cl & Hrun & Hlr & Hlc & Hall).
    { intros b Hb. apply Hnear. now right. }
    destruct (findClosestLandmarkIndex_col s a) as (i & p & Hi & Hlt & Hcol & _).
    { apply Hnear. now left. }
    exists (vsub a p :: rel), (findClosestLandmarkIndex s a :: cl).
    simpl. rewrite Hcol, Hrun. repeat split; try (simpl; congruence).
    intros [|k] b Hb; simpl in Hb.
    + injection Hb as <-. exists (vsub a p), (findClosestLandmarkIndex s a), p.
      repeat split; auto; lia.
    + simpl. apply Hall. exact Hb.
Qed.

Lemma shapeRelativePixelCoordinates_reconstructs_witness :
  (forall a, In a [mkV 0 1; mkV (Bench.q 1 2) 0] ->
             exists p, In p Bench.kite /\ vsquaredNorm (vsub p a) < FLT_MAX) /\
  exists relcoords closestLandmarks,
    shapeRelativePixelCoordinates Bench.kite [mkV 0 1; mkV (Bench.q 1 2) 0]
    = Some (relcoords, closestLandmarks) /\
    length relcoords = 2%nat /\
    length closestLandmarks = 2%nat /\
    forall i a, nth_error [mkV 0 1; mkV (Bench.q 1 2) 0] i = Some a ->
      exists r c p,
        nth_error relcoords i = Some r /\
        nth_error closestLandmarks i = Some c /\
        c = findClosestLandmarkIndex Bench.kite a /\
        (0 <= c < Z.of_nat (length Bench.kite))%Z /\
        col Bench.kite c = Some p /\
        r = vsub a p.
Proof.
  assert (H : forall a, In a [mkV 0 1; mkV (Bench.q 1 2) 0] ->
                        exists p, In p Bench.kite /\ vsquaredNorm (vsub p a) < FLT_MAX).
  { intros a [<- | [<- | []]]; exists (mkV 1 0);
      (split; [left; reflexivity | vm_compute; reflexivity]). }
  split; [exact H|].
  exact (shapeRelativePixelCoordinates_reconstructs Bench.kite _ H).
Defined.

(** ** Rounding never turns a non-zero integer into a zero *)

Lemma digits2_pos_bound (p : positive) : (2 ^ Zpos (digits2_pos p) <= 2 * Zpos p)%Z.
Proof.
  induction p as [p IH|p IH|]; cbn [digits2_pos].
  - rewrite Pos2Z.inj_succ, Z.pow_succ_r by lia. lia.
  - rewrite Pos2Z.inj_succ, Z.pow_succ_r by lia. lia.
  - reflexivity.
Qed.

Lemma shr_1_m (mrs : shr_record) :
  (0 <= shr_m mrs)%Z -> shr_m (shr_1 mrs) = (shr_m mrs / 2)%Z /\ (0 <= shr_m (shr_1 mrs))%Z.
Proof.
  destruct mrs as [m r s]. cbn [shr_m]. intros Hm.
  destruct m as [|[p|p|]|p]; cbn [shr_1 shr_m]; try lia; (split; [|lia]).
  - reflexivity.
  - apply Z.div_unique with 1%Z; lia.
  - apply Z.div_unique with 0%Z; lia.
  - reflexivity.
Qed.

Lemma iter_shr_1_m (n : positive) :
  forall mrs : shr_record,
    (0 <= shr_m mrs)%Z ->
    shr_m (iter_pos shr_1 n mrs) = (shr_m mrs / 2 ^ Zpos n)%Z /\
    (0 <= shr_m (iter_pos shr_1 n mrs))%Z.
Proof.
  induction n as [n IH|n IH|]; intros mrs Hm; cbn [iter_pos].
  - destruct (shr_1_m mrs Hm) as [H1 P1].
    destruct (IH _ P1) as [H2 P2]. destruct (IH _ P2) as [H3 P3].
    split; [|exact P3]. rewrite H3, H2, H1.
    assert (Hp : (0 < 2 ^ Zpos n)%Z) by (apply Z.pow_pos_nonneg; lia).
    rewrite !Z.div_div by lia. f_equal.
    replace (Zpos n~1) with (1 + Zpos n + Zpos n)%Z by lia.
    rewrite !Z.pow_add_r by lia. change (2 ^ 1)%Z with 2%Z. ring.
  - destruct (IH _ Hm) as [H2 P2]. destruct (IH _ P2) as [H3 P3].
    split; [|exact P3]. rewrite H3, H2.
    assert (Hp : (0 < 2 ^ Zpos n)%Z) by (apply Z.pow_pos_nonneg; lia).
    rewrite !Z.div_div by lia. f_equal.
    replace (Zpos n~0) with (Zpos n + Zpos n)%Z by lia.
    rewrite !Z.pow_add_r by lia. ring.
  - destruct (shr_1_m mrs Hm) as [H1 P1]. split; [|exact P1].
    rewrite H1. reflexivity.
Qed.

(** The shift that brings a positive mantissa to the format does not
    empty it, as long as the exponent is not below the least exponent of
    the format. *)
Lemma shr_fexp_positive (m : positive) (e : Z) (l : location) :
  (-149 <= e)%Z ->
  (0 < shr_m (fst (shr_fexp F32.prec F32.emax (Zpos m) e l)))%Z /\
  (-149 <= snd (shr_fexp F32.prec F32.emax (Zpos m) e l))%Z.
Proof.
  intros He. unfold shr_fexp, shr, fexp, emin, F32.prec, F32.emax. cbn [Zdigits2].
  assert (Hrec : shr_m (shr_record_of_loc (Zpos m) l) = Zpos m)
    by (destruct l as [|[| |]]; reflexivity).
  pose proof (digits2_pos_bound m) as Hd.
  set (d := Zpos (digits2_pos m)) in *.
  assert (Hd1 : (1 <= d)%Z) by (unfold d; lia).
  destruct (Z.max (d + e - 24) (3 - 128 - 24) - e)%Z as [|n|n] eqn:Hn; cbn [fst snd].
  - rewrite Hrec. lia.
  - destruct (iter_shr_1_m n (shr_record_of_loc (Zpos m) l)) as [H _]; [rewrite Hrec; lia|].
    rewrite H, Hrec. split; [|lia].
    apply Z.div_str_pos. split; [apply Z.pow_pos_nonneg; lia|].
    assert (Hle : (2 ^ Zpos n <= 2 ^ (d - 1))%Z) by (apply Z.pow_le_mono_r; lia).
    assert (Hp : (2 ^ d = 2 * 2 ^ (d - 1))%Z).
    { rewrite <- Z.pow_succ_r by lia. f_equal. lia. }
    lia.
  - rewrite Hrec. lia.
Qed.

Lemma round_nearest_even_positive (m : Z) (l : location) :
  (0 < m)%Z -> (0 < round_nearest_even m l)%Z.
Proof.
  intros Hm. destruct l as [|[| |]]; cbn [round_nearest_even]; try lia.
  destruct (Z.even m); lia.
Qed.

Lemma binary_round_aux_nonzero (s : bool) (m : positive) (e : Z) :
  (-149 <= e)%Z ->
  isZero (binary_round_aux F32.prec F32.emax s (Zpos m) e loc_Exact) = false.
Proof.
  intros He. unfold binary_round_aux.
  destruct (shr_fexp_positive m e loc_Exact He) as [Hm1 He1].
  destruct (shr_fexp F32.prec F32.emax (Zpos m) e loc_Exact) as [mrs1 e1].
  cbn [fst snd] in Hm1, He1.
  pose proof (round_nearest_even_positive _ (loc_of_shr_record mrs1) Hm1) as Hm2.
  destruct (round_nearest_even (shr_m mrs1) (loc_of_shr_record mrs1)) as [|m2|m2]; try lia.
  destruct (shr_fexp_positive m2 e1 loc_Exact He1) as [Hm3 _].
  destruct (shr_fexp F32.prec F32.emax (Zpos m2) e1 loc_Exact) as [mrs3 e3].
  cbn [fst] in Hm3.
  destruct (shr_m mrs3) as [|m3|m3]; try lia.
  destruct (e3 <=? F32.emax - F32.prec)%Z; reflexivity.
Qed.

Lemma float_of_nat_0 : float_of_nat 0 = 0.
Proof. reflexivity. Qed.

(** [static_cast<float>(n)] is a zero for [n = 0] only. *)
Lemma float_of_nat_nonzero (n : nat) : isZero (float_of_nat (S n)) = false.
Proof.
  unfold float_of_nat, float_of_Z, F32.of_Z. rewrite Nat2Z.inj_succ.
  destruct (Z.succ (Z.of_nat n)) as [|p|p] eqn:Hp; try lia.
  unfold binary_normalize, binary_round, shl_align.
  destruct (fexp F32.prec F32.emax (Zpos (digits2_pos p) + 0) - 0)%Z eqn:Hd;
    try (apply binary_round_aux_nonzero; lia).
  apply binary_round_aux_nonzero.
  unfold fexp, emin, F32.prec, F32.emax. lia.
Qed.

(** ** Coefficient-wise algebra of 2 x L matrices *)

Lemma map2_length_same {A B C} (f : A -> B -> C) (a : list A) (b : list B) :
  length a = length b -> length (map2 f a b) = length a.
Proof.
  revert b. induction a as [|x a IH]; intros [|y b] H; simpl in *; try congruence.
  f_equal. apply IH. congruence.
Qed.

Lemma shape_zero_length (L : nat) : length (shape_zero L) = L.
Proof. apply repeat_length. Qed.

Lemma shape_scale_length (c : float) (a : Shape) : length (shape_scale c a) = length a.
Proof. apply length_map. Qed.

Lemma shape_times_length (a : Shape) (c : float) : length (shape_times a c) = length a.
Proof. apply length_map. Qed.

Lemma same_size_Some (f : Shape -> Shape -> Shape) (a b r : Shape) :
  same_size f a b = Some r -> length a = length b /\ r = f a b.
Proof.
  unfold same_size. destruct (Nat.eqb (length a) (length b)) eqn:H; [|discriminate].
  intros [= <-]. split; [now apply Nat.eqb_eq | reflexivity].
Qed.

(** ** Runs *)

Lemma bind_Some {A B} (m : Exec A) (f : A -> Exec B) (b : B) (tr : ExecTrace) :
  bind m f = Some (b, tr) ->
  exists a l1 l2, m = Some (a, l1) /\ f a = Some (b, l2) /\ tr = l1 ++ l2.
Proof.
  unfold bind. destruct m as [[a l1]|]; [|discriminate].
  destruct (f a) as [[b' l2]|] eqn:Hf; [|discriminate].
  intros [= <- <-]. exists a, l1, l2. repeat split; auto.
Qed.

Lemma lift_Some {A} (o : option A) (a : A) (tr : ExecTrace) :
  lift o = Some (a, tr) -> o = Some a /\ tr = [].
Proof. destruct o; simpl; [intros [= <- <-]; auto | discriminate]. Qed.

Lemma ret_Some {A} (a b : A) (tr : ExecTrace) :
  ret a = Some (b, tr) -> a = b /\ tr = [].
Proof. unfold ret. intros [= <- <-]. auto. Qed.

(** Takes a successful run apart, one [bind] at a time. *)
Ltac exec_step :=
  match goal with
  | H : bind _ _ = Some _ |- _ =>
      apply bind_Some in H; destruct H as (? & ? & ? & ? & H & ?)
  | H : lift _ = Some _ |- _ => apply lift_Some in H; destruct H as [H ?]
  | H : ret _ = Some _ |- _ => apply ret_Some in H; destruct H as [H ?]
  | H : fail = Some _ |- _ => discriminate H
  | H : emit _ = Some _ |- _ => unfold emit in H; injection H as ? ?
  | H : (let (_, _) := ?x in _) = Some _ |- _ => destruct x
  | H : (if ?c then _ else _) = Some _ |- _ => destruct c eqn:?
  end.

Ltac exec_inv := repeat (exec_step; cbv beta iota zeta in * ).

(** ** Regressor::predict *)
(** ** Regressor::predict *)

Section PredictProperties.
Context `{E : External}.

(** When the loop of [predict] goes through, every tree prediction has the
    size of [sr] and the loop leaves [accumulated] behind. *)
Lemma accumulate_Some (lr : float) (intensities : PixelIntensities) (trees : list Tree) :
  forall (sr0 sr : ShapeResidual),
    Regressor.accumulate lr intensities trees sr0 = Some sr ->
    Forall (fun t => length (Tree_predict t intensities) = length sr0) trees /\
    length sr = length sr0 /\
    sr = accumulated lr intensities trees sr0.
Proof.
  induction trees as [|t trees IH]; intros sr0 sr; simpl.
  - intros [= <-]. auto.
  - destruct (same_size _ _ _) as [sr'|] eqn:Hsize; [|discriminate].
    apply same_size_Some in Hsize. destruct Hsize as [Hlen ->].
    rewrite shape_times_length in Hlen.
    intros H. apply IH in H. destruct H as (Hall & Hsr & Hacc).
    assert (Hadd : length (shape_add sr0 (shape_times (Tree_predict t intensities) lr))
                   = length sr0).
    { apply map2_length_same. now rewrite shape_times_length. }
    rewrite Hadd in *. split; [|split; [exact Hsr | exact Hacc]].
    constructor; [congruence | exact Hall].
Qed.

(** C3, as amended: whenever [predict] returns, the result is what the loop
    [sr = m; sr += t_k(I) * r] leaves, for the trees in their order: the
    stored mean residual [m], to which [t_1(I) * r], then [t_2(I) * r], and
    so on are added one after the other, each product and each sum rounded
    to a float; [r] is the stored learning rate and [I] the intensities read
    under the transform estimated from the stored mean shape to the query
    shape.  The mean residual enters with weight 1, and every tree
    prediction has the size of the mean residual. *)
Theorem predict_accumulates_in_order (d : Regressor.data) (img : Image) (shape : Shape)
        (sr : ShapeResidual) (tr : ExecTrace) :
  Regressor.predict d img shape = Some (sr, tr) ->
  exists (trans : AffineCompact2f) (intensities : PixelIntensities),
    estimateSimilarityTransform (Regressor.d_meanShape d) shape = Some (trans, tr) /\
    Regressor.readPixelIntensities d trans shape img = Some intensities /\
    Forall (fun t => length (Tree_predict t intensities)
                     = length (Regressor.d_meanResidual d)) (Regressor.d_trees d) /\
    sr = fold_left
           (fun acc tree =>
              shape_add acc
                (shape_times (Tree_predict tree intensities) (Regressor.d_learningRate d)))
           (Regressor.d_trees d) (Regressor.d_meanResidual d).
Proof.
  unfold Regressor.predict. intros H. exec_inv.
  subst. rewrite !app_nil_r. do 2 eexists. repeat split; eauto.
  - eapply accumulate_Some; eauto.
  - eapply accumulate_Some; eauto.
Qed.

End PredictProperties.

Lemma predict_accumulates_in_order_witness :
  exists sr tr,
    Regressor.predict Bench.trained (Bench.mkRamp 1 1 1) Bench.kiteShifted = Some (sr, tr) /\
    exists (trans : AffineCompact2f) (intensities : PixelIntensities),
      estimateSimilarityTransform (E := Bench.bench)
        (Regressor.d_meanShape Bench.trained) Bench.kiteShifted
      = Some (trans, tr) /\
      Regressor.readPixelIntensities Bench.trained trans Bench.kiteShifted (Bench.mkRamp 1 1 1)
      = Some intensities /\
      Forall (fun t => length (Tree_predict (External := Bench.bench) t intensities)
                       = length (Regressor.d_meanResidual Bench.trained))
             (Regressor.d_trees Bench.trained) /\
      sr = fold_left
             (fun acc tree =>
                shape_add acc
                  (shape_times (Tree_predict (External := Bench.bench) tree intensities)
                               (Regressor.d_learningRate Bench.trained)))
             (Regressor.d_trees Bench.trained) (Regressor.d_meanResidual Bench.trained).
Proof.
  assert (H : Regressor.predict Bench.trained (Bench.mkRamp 1 1 1) Bench.kiteShifted
              = Bench.predictRun) by reflexivity.
  unfold Bench.predictRun in H.
  do 2 eexists. split; [exact H|].
  exact (predict_accumulates_in_order _ _ _ _ _ H).
Defined.

(** ** Regressor::fit *)

Section FitProperties.
Context `{E : External}.

(** What a run of [fit] that returns went through. *)
Lemma fit_Some (d : Regressor.data) (t : Regressor.RegressorTraining)
      (r : Regressor.FitResult) (tr : ExecTrace) :
  Regressor.fit d t = Some (r, tr) ->
  let params := Regressor.td_params (Regressor.r_trainingData t) in
  let K := Z.to_nat (numTrees params) in
  let lr := learningRate params in
  let trees0 := Regressor.resize K Tree_default (Regressor.d_trees d) in
  let n := float_of_nat (length (Regressor.r_samples t)) in
  (0 <= numTrees params)%Z /\ (0 <= Regressor.r_numLandmarks t)%Z /\
  exists pixelCoordinates rnd1 tr1 relcoords closest total tsamples tr2 st tr3,
    Regressor.sampleCoordinates t = Some ((pixelCoordinates, rnd1), tr1) /\
    shapeRelativePixelCoordinates (Regressor.r_meanShape t) pixelCoordinates
    = Some (relcoords, closest) /\
    Regressor.prepareSamples
      (Regressor.mkData relcoords closest (Regressor.d_meanResidual d)
                        (Regressor.r_meanShape t) trees0 lr)
      t (Regressor.r_samples t) (shape_zero (Z.to_nat (Regressor.r_numLandmarks t)))
    = Some ((total, tsamples), tr2) /\
    Regressor.boostLoop t pixelCoordinates (shape_divs total n) lr K 0
                        (Regressor.mkBoost trees0 tsamples rnd1)
    = Some (st, tr3) /\
    r = Regressor.mkFitResult false
          (Regressor.mkData relcoords closest (shape_divs total n)
                            (Regressor.r_meanShape t) (Regressor.b_trees st) lr)
          (Regressor.b_rnd st) /\
    tr = tr1 ++ tr2 ++ Division DivSampleCount n :: tr3.
Proof.
  unfold Regressor.fit, sdiv. intros H. cbv zeta in H. exec_inv.
  split; [lia|]. split; [lia|]. subst.
  do 10 eexists.
  split; [eassumption|]. split; [eassumption|]. split; [eassumption|].
  split; [eassumption|]. split; [reflexivity|].
  simpl. rewrite !app_nil_r. reflexivity.
Qed.

(** C9: whatever the regressor's state and the training set, a call of [fit]
    that returns returns [false]. *)
Theorem fit_returns_false (d : Regressor.data) (t : Regressor.RegressorTraining)
        (r : Regressor.FitResult) (tr : ExecTrace) :
  Regressor.fit d t = Some (r, tr) -> Regressor.fit_return r = false.
Proof.
  intros H. apply fit_Some in H. cbv zeta in H.
  destruct H as (_ & _ & pc & rnd1 & tr1 & rel & cl & total & ts & tr2 & st & tr3 & H).
  destruct H as (_ & _ & _ & _ & -> & _). reflexivity.
Qed.

End FitProperties.

(** A complete training run (two samples, two trees) that returns [false]. *)
Lemma fit_returns_false_witness :
  exists r tr,
    Regressor.fit Bench.untrained Bench.training = Some (r, tr) /\
    Regressor.fit_return r = false.
Proof.
  assert (H : Regressor.fit Bench.untrained Bench.training = Bench.trainingRun)
    by reflexivity.
  unfold Bench.trainingRun in H.
  do 2 eexists. split; [exact H|]. exact (fit_returns_false _ _ _ _ H).
Defined.

(** ** What estimateSimilarityTransform goes through *)

Section AlignmentRuns.
Context `{E : External}.

(** The locals of a run, written out, and its trace: four divisions by a
    column count, then the division by the source variance if and only if
    that variance is positive. *)
Lemma estimateAlignment_Some (from to : Shape) (al : Alignment) (tr : ExecTrace) :
  estimateAlignment from to = Some (al, tr) ->
  let n := float_of_nat (length from) in
  let meanFrom := vdivs (colwise_sum from) n in
  let meanTo := vdivs (colwise_sum to) (float_of_nat (length to)) in
  let centeredFrom := map (fun p => vsub p meanFrom) from in
  let centeredTo := map (fun p => vsub p meanTo) to in
  let cov := mdivs (mul_transpose centeredFrom centeredTo) n in
  let sFrom := squaredNorm centeredFrom / n in
  let svd := jacobiSvd cov in
  let d := mdiag (fst (singularValues svd)) (snd (singularValues svd)) in
  let s := reflectionCorrection cov svd in
  let rot := mmul (mmul (mtranspose (matrixU svd)) s) (matrixV svd) in
  let c := if 0 <? sFrom then 1 / sFrom * trace (mmul d s) else 1 in
  length from = length to /\
  al = mkAlignment meanFrom meanTo cov sFrom svd d s rot c
                   (vsub meanTo (mvec (mscale c rot) meanFrom)) /\
  tr = [Division DivMean n; Division DivMean (float_of_nat (length to));
        Division DivCovCount n; Division DivVarianceCount n]
       ++ (if 0 <? sFrom then [Division DivSourceVariance sFrom] else []).
Proof.
  intros H. cbv zeta.
  unfold estimateAlignment, rowwise_mean, vdiv, mdiv, fdiv, emit, ret, lift in H.
  cbv beta iota zeta delta [bind] in H.
  rewrite !length_map in H.
  destruct (Nat.eqb (length from) (length to)) eqn:Hlen; [|discriminate].
  apply Nat.eqb_eq in Hlen.
  destruct (0 <? _) eqn:Hpos;
    injection H as <- <-; (split; [exact Hlen|]); split; reflexivity.
Qed.

(** The alignment of two shapes with the same number of landmarks always
    returns. *)
Lemma estimateAlignment_returns (from to : Shape) :
  length from = length to ->
  exists al tr, estimateAlignment from to = Some (al, tr).
Proof.
  intros Hlen.
  unfold estimateAlignment, rowwise_mean, vdiv, mdiv, fdiv, emit, ret, lift.
  cbv beta iota zeta delta [bind].
  rewrite !length_map, Hlen, Nat.eqb_refl.
  destruct (0 <? _); do 2 eexists; reflexivity.
Qed.

Lemma estimateSimilarityTransform_Some (from to : Shape) (a : AffineCompact2f)
      (tr : ExecTrace) :
  estimateSimilarityTransform from to = Some (a, tr) ->
  exists al, estimateAlignment from to = Some (al, tr) /\
             a = mkAffine (mscale (al_c al) (al_rot al)) (al_t al).
Proof.
  unfold estimateSimilarityTransform, bind, ret.
  destruct (estimateAlignment from to) as [[al l]|]; [|discriminate].
  intros [= <- <-]. exists al. rewrite app_nil_r. auto.
Qed.

Lemma estimateSimilarityTransform_divisions (from to : Shape) (a : AffineCompact2f)
      (tr : ExecTrace) :
  estimateSimilarityTransform from to = Some (a, tr) -> Forall isDivision tr.
Proof.
  intros H. apply estimateSimilarityTransform_Some in H. destruct H as (al & H & _).
  apply estimateAlignment_Some in H. cbv zeta in H. destruct H as (_ & _ & ->).
  apply Forall_app. split.
  - repeat constructor.
  - destruct (_ <? _); repeat constructor.
Qed.

End AlignmentRuns.

(** ** The two loops of Regressor::fit *)

Section FitLoops.
Context `{E : External}.

Lemma prepareSamples_Some (d : Regressor.data) (t : Regressor.RegressorTraining)
      (samples : list Regressor.RSample) :
  forall (acc total : ShapeResidual) (tsamples : list TSample) (tr : ExecTrace),
    Regressor.prepareSamples d t samples acc = Some ((total, tsamples), tr) ->
    Forall2 (initialTarget d t) samples tsamples /\
    total = fold_left shape_add (map ts_residual tsamples) acc /\
    Forall (fun s0 => length (ts_residual s0) = length acc) tsamples /\
    Forall isDivision tr.
Proof.
  induction samples as [|smp rest IH]; intros acc total tsamples tr H; simpl in H.
  - injection H as <- <- <-. repeat split; constructor.
  - apply bind_Some in H. destruct H as (gt & l1 & l1' & Hgt & H & ->).
    apply lift_Some in Hgt. destruct Hgt as [Hgt ->].
    apply bind_Some in H. destruct H as (res & l2 & l2' & Hres & H & ->).
    apply lift_Some in Hres. destruct Hres as [Hres ->].
    apply bind_Some in H. destruct H as (acc' & l3 & l3' & Hacc & H & ->).
    apply lift_Some in Hacc. destruct Hacc as [Hacc ->].
    apply bind_Some in H. destruct H as (trans & l4 & l4' & Htrans & H & ->).
    apply bind_Some in H. destruct H as (img & l5 & l5' & Himg & H & ->).
    apply lift_Some in Himg. destruct Himg as [Himg ->].
    apply bind_Some in H. destruct H as (ints & l6 & l6' & Hints & H & ->).
    apply lift_Some in Hints. destruct Hints as [Hints ->].
    apply bind_Some in H. destruct H as ([total' ts'] & l7 & l7' & Hrest & H & ->).
    injection H as <- <- <-.
    apply IH in Hrest. destruct Hrest as (Hall & Htot & Hlen & Hdiv).
    apply same_size_Some in Hres. destruct Hres as [Hlgt ->].
    apply same_size_Some in Hacc. destruct Hacc as [Hlacc ->].
    assert (Hacc : length (shape_add acc (shape_sub gt (Regressor.rs_estimate smp)))
                   = length acc) by (apply map2_length_same; exact Hlacc).
    repeat split.
    + constructor; [|exact Hall].
      exists gt, img, trans, l4. repeat split; auto.
    + exact Htot.
    + constructor; [simpl; congruence|].
      eapply Forall_impl; [|exact Hlen]. simpl. intros s0 Hs0. congruence.
    + simpl. rewrite !app_nil_r.
      apply Forall_app. split; [eapply estimateSimilarityTransform_divisions; eauto|].
      exact Hdiv.
Qed.

End FitLoops.

(** ** The boosting loop *)

(** ** The boosting loop *)

Section Boosting.
Context `{E : External}.

Lemma resize_length {A} (n : nat) (def : A) (l : list A) :
  length (Regressor.resize n def l) = n.
Proof.
  unfold Regressor.resize. rewrite length_app, length_firstn, repeat_length. lia.
Qed.

Lemma set_nth_length {A} (k : nat) (x : A) (l : list A) :
  length (Regressor.set_nth k x l) = length l.
Proof.
  revert k. induction l as [|y l IH]; intros [|k]; simpl; auto.
Qed.

Lemma firstn_set_nth {A} (j k : nat) (x : A) (l : list A) :
  (j <= k)%nat -> firstn j (Regressor.set_nth k x l) = firstn j l.
Proof.
  revert j k. induction l as [|y l IH]; intros [|j] [|k] H; simpl; auto; try lia.
  f_equal. apply IH. lia.
Qed.

Lemma firstn_S_nth_error {A} (j : nat) (x : A) (l : list A) :
  nth_error l j = Some x -> firstn (S j) l = firstn j l ++ [x].
Proof.
  revert j. induction l as [|y l IH]; intros [|j] H; simpl in *; try discriminate.
  - injection H as ->. reflexivity.
  - f_equal. apply IH. exact H.
Qed.

Lemma firstn_prefix {A} (j k : nat) (l1 l2 : list A) :
  (j <= k)%nat -> firstn k l1 = firstn k l2 -> firstn j l1 = firstn j l2.
Proof.
  intros Hjk H.
  rewrite <- (Nat.min_l j k Hjk), <- !firstn_firstn, H. reflexivity.
Qed.

Lemma boosted_prefix (m : ShapeResidual) (lr : float) (trees trees' : list Tree)
      (k : nat) (s0 : TSample) :
  firstn k trees = firstn k trees' -> boosted m lr trees k s0 = boosted m lr trees' k s0.
Proof. unfold boosted. intros ->. reflexivity. Qed.

Lemma mapM_perm {A B} (f : A -> option B) (l l2 : list A) :
  Permutation l l2 ->
  forall l', Regressor.mapM f l = Some l' ->
             exists l2', Regressor.mapM f l2 = Some l2' /\ Permutation l' l2'.
Proof.
  induction 1 as [|x l l2 Hp IH|x y l|l l2 l3 H1 IH1 H2 IH2]; intros l' H; simpl in *.
  - injection H as <-. exists []. auto.
  - destruct (f x) as [y|]; [|discriminate].
    destruct (Regressor.mapM f l) as [ys|]; [|discriminate].
    injection H as <-. destruct (IH ys eq_refl) as (ys2 & -> & Hys).
    exists (y :: ys2). auto.
  - destruct (f y) as [b|]; [|discriminate].
    destruct (f x) as [a|]; [|discriminate].
    destruct (Regressor.mapM f l) as [r|]; [|discriminate].
    injection H as <-. exists (a :: b :: r). split; [reflexivity | apply perm_swap].
  - destruct (IH1 _ H) as (l2' & H2' & Hp2).
    destruct (IH2 _ H2') as (l3' & H3' & Hp3).
    exists l3'. split; [exact H3' | eapply Permutation_trans; eauto].
Qed.

Lemma mapM_map {A B C} (f : A -> option B) (g : C -> A) (h : C -> B) (init : list C) :
  (forall c y, f (g c) = Some y -> y = h c) ->
  forall l, Regressor.mapM f (map g init) = Some l -> l = map h init.
Proof.
  intros Hf. induction init as [|c init IH]; intros l H; simpl in *.
  - injection H as <-. reflexivity.
  - destruct (f (g c)) as [y|] eqn:Hy; [|discriminate].
    destruct (Regressor.mapM f (map g init)) as [ys|]; [|discriminate].
    injection H as <-. f_equal; [apply Hf; exact Hy | apply IH; reflexivity].
Qed.

(** One subtraction turns the sample carried into iteration [k] into the
    sample boosted up to tree [k]. *)
Lemma subtractStep_boosted (m : ShapeResidual) (lr : float) (trees : list Tree)
      (k : nat) (s0 y : TSample) :
  Regressor.subtractStep k m lr trees (carried m lr trees k s0) = Some y ->
  y = boosted m lr trees k s0.
Proof.
  destruct k as [|j]; unfold carried, Regressor.subtractStep.
  - destruct (same_size _ _ _) as [r|] eqn:Hr; [|discriminate].
    apply same_size_Some in Hr. destruct Hr as [_ ->]. intros [= <-].
    reflexivity.
  - destruct (nth_error trees j) as [tree|] eqn:Htree; [|discriminate].
    destruct (same_size _ _ _) as [r|] eqn:Hr; [|discriminate].
    apply same_size_Some in Hr. destruct Hr as [_ ->]. intros [= <-].
    unfold boosted. cbn [ts_residual ts_intensities].
    rewrite (firstn_S_nth_error _ _ _ Htree), fold_left_app. reflexivity.
Qed.

Lemma subtract_working (m : ShapeResidual) (lr : float) (trees : list Tree) (k : nat)
      (init samples working : list TSample) :
  Permutation samples (map (carried m lr trees k) init) ->
  Regressor.mapM (Regressor.subtractStep k m lr trees) samples = Some working ->
  Permutation working (map (boosted m lr trees k) init).
Proof.
  intros Hp Hrun.
  destruct (mapM_perm _ _ _ Hp _ Hrun) as (w2 & Hrun2 & Hp2).
  apply (mapM_map _ _ (boosted m lr trees k)) in Hrun2.
  - now subst.
  - intros c y. apply subtractStep_boosted.
Qed.

Lemma boostStep_Some (t : Regressor.RegressorTraining) (pc : PixelCoordinates)
      (m : ShapeResidual) (lr : float) (k : nat) (st st' : Regressor.BoostState)
      (tr : ExecTrace) :
  Regressor.boostStep t pc m lr k st = Some (st', tr) ->
  exists working tree,
    Regressor.mapM (Regressor.subtractStep k m lr (Regressor.b_trees st))
                   (Regressor.b_samples st) = Some working /\
    nth_error (Regressor.b_trees st) k = Some tree /\
    tr = [TreeFitCall k working] /\
    Regressor.b_trees st'
    = Regressor.set_nth k
        (fst (fst (Tree_fit tree (Regressor.treeTraining t pc working (Regressor.b_rnd st)))))
        (Regressor.b_trees st) /\
    Regressor.b_samples st'
    = snd (fst (Tree_fit tree (Regressor.treeTraining t pc working (Regressor.b_rnd st)))).
Proof.
  unfold Regressor.boostStep. intros H.
  apply bind_Some in H. destruct H as (working & l1 & l1' & Hw & H & ->).
  apply lift_Some in Hw. destruct Hw as [Hw ->].
  apply bind_Some in H. destruct H as (tree & l2 & l2' & Ht & H & ->).
  apply lift_Some in Ht. destruct Ht as [Ht ->].
  apply bind_Some in H. destruct H as ([] & l3 & l3' & He & H & ->).
  unfold emit in He. injection He as <-.
  destruct (Tree_fit _ _) as [[tree' samples'] rnd'] eqn:Hfit.
  unfold ret in H. injection H as <- <-.
  exists working, tree. rewrite Hfit. repeat split; auto.
Qed.

Lemma boostLoop_length (t : Regressor.RegressorTraining) (pc : PixelCoordinates)
      (m : ShapeResidual) (lr : float) :
  forall (n k : nat) (st st' : Regressor.BoostState) (tr : ExecTrace),
    Regressor.boostLoop t pc m lr n k st = Some (st', tr) ->
    length (Regressor.b_trees st') = length (Regressor.b_trees st).
Proof.
  induction n as [|n IH]; intros k st st' tr H; simpl in H.
  - injection H as <- <-. reflexivity.
  - apply bind_Some in H. destruct H as (st1 & l1 & l2 & Hstep & Hloop & ->).
    apply boostStep_Some in Hstep.
    destruct Hstep as (working & tree & _ & _ & _ & Htrees1 & _).
    apply IH in Hloop. rewrite Hloop, Htrees1. apply set_nth_length.
Qed.

(** The invariant of the boosting loop.  If the samples carried into
    iteration [k] are, up to order, the initial samples boosted up to tree
    [k - 1], then every call of [Tree::fit] in the [n] iterations from [k] on
    receives, up to order, the initial samples boosted up to the tree being
    fit; there is one call for every tree; trees before [k] are not
    touched. *)
Lemma boostLoop_invariant (t : Regressor.RegressorTraining) (pc : PixelCoordinates)
      (m : ShapeResidual) (lr : float) (init : list TSample) :
  keepsWorkingSet ->
  forall (n k : nat) (st st' : Regressor.BoostState) (tr : ExecTrace),
    Regressor.boostLoop t pc m lr n k st = Some (st', tr) ->
    Permutation (Regressor.b_samples st) (map (carried m lr (Regressor.b_trees st) k) init) ->
    length (Regressor.b_trees st') = length (Regressor.b_trees st) /\
    firstn k (Regressor.b_trees st') = firstn k (Regressor.b_trees st) /\
    (forall k' w, In (TreeFitCall k' w) tr ->
                  (k <= k' < k + n)%nat /\
                  Permutation w (map (boosted m lr (Regressor.b_trees st') k') init)) /\
    (forall k', (k <= k' < k + n)%nat -> exists w, In (TreeFitCall k' w) tr) /\
    (forall e, In e tr -> ~ isDivision e).
Proof.
  intros Hfit. induction n as [|n IH]; intros k st st' tr H Hinv; simpl in H.
  - injection H as <- <-.
    split; [reflexivity|]. split; [reflexivity|].
    split; [intros k' w []|]. split; [intros k' Hk'; lia | intros e []].
  - apply bind_Some in H. destruct H as (st1 & l1 & l2 & Hstep & Hloop & ->).
    apply boostStep_Some in Hstep.
    destruct Hstep as (working & tree & Hw & Htree & -> & Htrees1 & Hsamples1).
    assert (Hwork : Permutation working (map (boosted m lr (Regressor.b_trees st) k) init))
      by (eapply subtract_working; eauto).
    assert (Hpre1 : firstn k (Regressor.b_trees st1) = firstn k (Regressor.b_trees st))
      by (rewrite Htrees1; apply firstn_set_nth; lia).
    apply IH in Hloop.
    + destruct Hloop as (Hlen & Hpre & Hcalls & Hevery & Hnodiv).
      assert (Hprek : firstn k (Regressor.b_trees st') = firstn k (Regressor.b_trees st)).
      { rewrite <- Hpre1. apply (firstn_prefix k (S k)); [lia | exact Hpre]. }
      split; [rewrite Hlen, Htrees1; apply set_nth_length|].
      split; [exact Hprek|].
      split; [|split].
      * intros k' w [Heq | Hin].
        -- injection Heq as <- <-. split; [lia|].
           erewrite map_ext; [exact Hwork|].
           intros s0. apply boosted_prefix. exact Hprek.
        -- destruct (Hcalls _ _ Hin) as [Hr Hp]. split; [lia | exact Hp].
      * intros k' Hk'. destruct (Nat.eq_dec k' k) as [->|Hne].
        -- exists working. left. reflexivity.
        -- destruct (Hevery k') as (w & Hin); [lia|]. exists w. right. exact Hin.
      * intros e [<- | Hin]; [simpl; auto | apply Hnodiv; exact Hin].
    + rewrite Hsamples1. simpl.
      eapply Permutation_trans; [apply Hfit|]. cbn [tt_samples Regressor.treeTraining].
      erewrite map_ext; [exact Hwork|].
      intros s0. apply boosted_prefix. exact Hpre1.
Qed.

End Boosting.

(** ** Regressor::fit, the boosting residual *)

Section FitBoosting.
Context `{E : External}.

Lemma sampleCoordinates_Some (t : Regressor.RegressorTraining) (pc : PixelCoordinates)
      (rnd : Rnd) (tr : ExecTrace) :
  Regressor.sampleCoordinates t = Some ((pc, rnd), tr) ->
  exists minC maxC,
    rowwise_minCoeff (Regressor.r_meanShape t) = Some minC /\
    rowwise_maxCoeff (Regressor.r_meanShape t) = Some maxC /\
    (0 <= numRandomPixelCoordinates (Regressor.td_params (Regressor.r_trainingData t)))%Z /\
    (pc, rnd) = Regressor.drawCoordinates
                  (Z.to_nat (numRandomPixelCoordinates
                               (Regressor.td_params (Regressor.r_trainingData t))))
                  minC maxC (Regressor.td_rnd (Regressor.r_trainingData t)) /\
    tr = [].
Proof.
  unfold Regressor.sampleCoordinates. intros H.
  apply bind_Some in H. destruct H as (minC & l1 & l1' & Hmin & H & ->).
  apply lift_Some in Hmin. destruct Hmin as [Hmin ->].
  apply bind_Some in H. destruct H as (maxC & l2 & l2' & Hmax & H & ->).
  apply lift_Some in Hmax. destruct Hmax as [Hmax ->].
  destruct (_ <? 0)%Z eqn:Hn; [discriminate|].
  unfold ret in H. injection H as H <-.
  exists minC, maxC. repeat split; auto. lia.
Qed.

Lemma initialTarget_frozen (d d' : Regressor.data) (t : Regressor.RegressorTraining)
      (smp : Regressor.RSample) (s0 : TSample) :
  Regressor.d_shapeRelativePixelCoordinates d = Regressor.d_shapeRelativePixelCoordinates d' ->
  Regressor.d_closestShapeLandmark d = Regressor.d_closestShapeLandmark d' ->
  initialTarget d t smp s0 -> initialTarget d' t smp s0.
Proof.
  intros Hrel Hcl (gt & img & trans & tre & H1 & H2 & H3 & H4 & H5 & H6).
  exists gt, img, trans, tre. repeat split; auto.
  unfold Regressor.readPixelIntensities in *. rewrite <- Hrel, <- Hcl. exact H6.
Qed.

(** C4, as amended: in a run of [fit] that returns, with K trees, there is
    one call of [Tree::fit] for every tree k < K, and the working set passed
    to the call for tree k consists (up to the order in which [Tree::fit]
    leaves the set) of one working sample per training sample, carrying that
    sample's cached intensities and the residual that the subtractions of
    the iterations 0 to k leave, applied one after the other and each
    rounded to a float:
    (((ground truth - current estimate) - meanResidual)
        - learningRate * t_0(I)) - ... - learningRate * t_(k-1)(I),
    where meanResidual, learningRate and the trees are the ones [fit]
    stores, and meanResidual is the sum of the initial residuals over the
    sample count. *)
Theorem fit_trees_see_boosting_residual (d : Regressor.data)
        (t : Regressor.RegressorTraining) (r : Regressor.FitResult) (tr : ExecTrace) :
  keepsWorkingSet ->
  Regressor.fit d t = Some (r, tr) ->
  exists init : list TSample,
    Forall2 (initialTarget (Regressor.fit_data r) t) (Regressor.r_samples t) init /\
    Regressor.d_learningRate (Regressor.fit_data r)
    = learningRate (Regressor.td_params (Regressor.r_trainingData t)) /\
    Regressor.d_meanResidual (Regressor.fit_data r)
    = shape_divs (shape_sum (Z.to_nat (Regressor.r_numLandmarks t)) (map ts_residual init))
                 (float_of_nat (length (Regressor.r_samples t))) /\
    (forall k, (k < Z.to_nat (numTrees (Regressor.td_params (Regressor.r_trainingData t))))%nat ->
               exists working, In (TreeFitCall k working) tr) /\
    (forall k working,
        In (TreeFitCall k working) tr ->
        (k < Z.to_nat (numTrees (Regressor.td_params (Regressor.r_trainingData t))))%nat /\
        Permutation working
          (map (fun s0 =>
                  mkTSample
                    (fold_left
                       (fun w tree =>
                          shape_sub w
                            (shape_scale (Regressor.d_learningRate (Regressor.fit_data r))
                                         (Tree_predict tree (ts_intensities s0))))
                       (firstn k (Regressor.d_trees (Regressor.fit_data r)))
                       (shape_sub (ts_residual s0)
                                  (Regressor.d_meanResidual (Regressor.fit_data r))))
                    (ts_intensities s0))
               init)).
Proof.
  intros Hkeep H. apply fit_Some in H. cbv zeta in H.
  destruct H as (HK & HL & pc & rnd1 & tr1 & rel & cl & total & init & tr2 & st & tr3 & H).
  destruct H as (Hsample & Hrel & Hprep & Hloop & -> & ->).
  apply sampleCoordinates_Some in Hsample.
  destruct Hsample as (minC & maxC & _ & _ & _ & _ & ->).
  apply prepareSamples_Some in Hprep. destruct Hprep as (Hinit & Htotal & _ & Hdiv).
  eapply boostLoop_invariant with (init := init) in Hloop; [|exact Hkeep|].
  2:{ simpl. rewrite map_id. apply Permutation_refl. }
  destruct Hloop as (_ & _ & Hcalls & Hevery & Hnodiv).
  exists init. cbn [Regressor.fit_data Regressor.d_learningRate Regressor.d_meanResidual
                    Regressor.d_trees].
  split.
  { eapply Forall2_impl; [|exact Hinit].
    intros smp s0. apply initialTarget_frozen; reflexivity. }
  split; [reflexivity|].
  split; [rewrite Htotal; reflexivity|].
  split.
  - intros k Hk. destruct (Hevery k) as (w & Hin); [lia|].
    exists w. cbn [app]. apply in_or_app. right. right. exact Hin.
  - intros k w Hin. cbn [app] in Hin. apply in_app_or in Hin.
    destruct Hin as [Hin | [Heq | Hin]].
    + rewrite Forall_forall in Hdiv. apply Hdiv in Hin. destruct Hin.
    + discriminate.
    + destruct (Hcalls _ _ Hin) as [Hr Hp]. split; [lia | exact Hp].
Qed.

End FitBoosting.

Lemma benchConstant_keepsWorkingSet : keepsWorkingSet (E := Bench.benchConstant).
Proof.
  intros tree tt. simpl.
  apply Permutation_sym, Permutation_rev.
Defined.

(** A training run with three trees whose predictions are not zero, so that
    the subtractions of the iterations 1 and 2 are at work. *)
Lemma fit_trees_see_boosting_residual_witness :
  keepsWorkingSet (E := Bench.benchConstant) /\
  exists r tr,
    Regressor.fit (E := Bench.benchConstant) Bench.untrainedConstant Bench.trainingTiny
    = Some (r, tr) /\
    exists init : list TSample,
      Forall2 (initialTarget (E := Bench.benchConstant) (Regressor.fit_data r)
                             Bench.trainingTiny)
              (Regressor.r_samples Bench.trainingTiny) init /\
      Regressor.d_learningRate (Regressor.fit_data r) = 1 /\
      Regressor.d_meanResidual (Regressor.fit_data r)
      = shape_divs (shape_sum 1 (map ts_residual init)) (float_of_nat 2) /\
      (forall k, (k < 3)%nat -> exists working, In (TreeFitCall k working) tr) /\
      (forall k working,
          In (TreeFitCall k working) tr ->
          (k < 3)%nat /\
          Permutation working
            (map (fun s0 =>
                    mkTSample
                      (fold_left
                         (fun w tree =>
                            shape_sub w
                              (shape_scale (Regressor.d_learningRate (Regressor.fit_data r))
                                 (Tree_predict (External := Bench.benchConstant) tree
                                               (ts_intensities s0))))
                         (firstn k (Regressor.d_trees (Regressor.fit_data r)))
                         (shape_sub (ts_residual s0)
                                    (Regressor.d_meanResidual (Regressor.fit_data r))))
                      (ts_intensities s0))
                 init)).
Proof.
  split; [exact benchConstant_keepsWorkingSet|].
  assert (H : Regressor.fit (E := Bench.benchConstant) Bench.untrainedConstant
                            Bench.trainingTiny
              = Bench.tinyTrainingRun) by reflexivity.
  unfold Bench.tinyTrainingRun in H.
  do 2 eexists. split; [exact H|].
  exact (fit_trees_see_boosting_residual (E := Bench.benchConstant) _ _ _ _
           benchConstant_keepsWorkingSet H).
Defined.

(** C4, counterexample: three trees, learning rate 1, one landmark, and two
    samples with the initial residuals (-2, 0) and (0, 0), so that the mean
    residual is (-1, 0); every tree the trainer builds predicts (2^-24, 0).
    For the first sample the claim's expression is
    (-2 - (-1)) - 1 * (2^-24 + 2^-24) = -(1 + 2^-23), which is a float.  The
    working set tree 2 is fit on holds the residuals (-1, 0) and
    (1 - 2^-23, 0): the loop subtracted 2^-24 from -1 twice, and each
    difference rounded back to -1. *)
Lemma fit_working_residual_rounds_every_step :
  exists r tr working,
    Regressor.fit (E := Bench.benchConstant) Bench.untrainedConstant Bench.trainingTiny
    = Some (r, tr) /\
    In (TreeFitCall 2 working) tr /\
    map ts_residual working = [[mkV (-(1)) 0]; [mkV (Bench.q 16777214 16777216) 0]] /\
    let m := Regressor.d_meanResidual (Regressor.fit_data r) in
    let lr := Regressor.d_learningRate (Regressor.fit_data r) in
    let initial := shape_sub [mkV 0 0] [mkV (Bench.q 2 1) 0] in
    let t0 := Bench.walk (nth 0 (Regressor.d_trees (Regressor.fit_data r)) (Bench.Leaf [])) [] in
    let t1 := Bench.walk (nth 1 (Regressor.d_trees (Regressor.fit_data r)) (Bench.Leaf [])) [] in
    let claimed := shape_sub (shape_sub initial m) (shape_scale lr (shape_add t0 t1)) in
    claimed = [mkV (- Bench.q 8388609 8388608) 0] /\
    ~ In claimed (map ts_residual working) /\
    F32.toQ (- Bench.q 8388609 8388608) = Some (- (8388609 # 8388608))%Q /\
    ((-2 # 1) - (-1 # 1) - 1 * ((1 # 16777216) + (1 # 16777216)) == - (8388609 # 8388608))%Q.
Proof.
  assert (H : Regressor.fit (E := Bench.benchConstant) Bench.untrainedConstant
                            Bench.trainingTiny
              = Bench.tinyTrainingRun) by reflexivity.
  unfold Bench.tinyTrainingRun in H.
  do 3 eexists. split; [exact H|].
  split; [do 11 right; left; reflexivity|].
  split; [vm_compute; reflexivity|].
  cbv zeta. split; [vm_compute; reflexivity|].
  split; [|split; vm_compute; reflexivity].
  vm_compute. intros [Heq | [Heq | []]]; discriminate Heq.
Qed.

(** C3, counterexample: a regressor on one landmark with the mean residual
    (1, 0), learning rate 1 and two trees that both predict (2^-24, 0).
    The claim's expression is 1 + 1 * (2^-24 + 2^-24) = 1 + 2^-23, which is
    a float.  [predict] returns (1, 0): the loop added 2^-24 to 1 twice, and
    each sum rounded back to 1. *)
Lemma predict_rounds_after_every_tree :
  exists sr tr,
    Regressor.predict Bench.tinyLeaves (Bench.mkRamp 1 1 1) [mkV 0 0] = Some (sr, tr) /\
    sr = [mkV 1 0] /\
    let m := Regressor.d_meanResidual Bench.tinyLeaves in
    let r := Regressor.d_learningRate Bench.tinyLeaves in
    let t1 := Bench.walk (nth 0 (Regressor.d_trees Bench.tinyLeaves) (Bench.Leaf [])) [] in
    let t2 := Bench.walk (nth 1 (Regressor.d_trees Bench.tinyLeaves) (Bench.Leaf [])) [] in
    let claimed := shape_add m (shape_scale r (shape_add t1 t2)) in
    claimed = [mkV (Bench.q 8388609 8388608) 0] /\
    sr <> claimed /\
    F32.toQ (Bench.q 8388609 8388608) = Some (8388609 # 8388608)%Q /\
    (1 + 1 * ((1 # 16777216) + (1 # 16777216)) == 8388609 # 8388608)%Q.
Proof.
  assert (H : Regressor.predict Bench.tinyLeaves (Bench.mkRamp 1 1 1) [mkV 0 0]
              = Bench.tinyPredictRun) by reflexivity.
  unfold Bench.tinyPredictRun in H.
  do 2 eexists. split; [exact H|].
  split; [reflexivity|].
  cbv zeta. split; [vm_compute; reflexivity|].
  split; [|split; vm_compute; reflexivity].
  vm_compute. intros Heq. discriminate Heq.
Qed.

(** ** Regressor::fit on an empty sample set *)

(** C2, counterexample: [fit] on a regressor in its initial state and a
    training set with no samples.  The call is not rejected: it runs to its
    end, the regressor's state has changed (the learning rate, for one, is
    the configured 1/2 where it was 0), and the trace holds the division of
    the residual sum by the sample count 0. *)
Lemma fit_no_samples_not_rejected :
  Regressor.r_samples Bench.trainingNoSamples = [] /\
  exists r tr,
    Regressor.fit Bench.untrained Bench.trainingNoSamples = Some (r, tr) /\
    Regressor.fit_data r <> Bench.untrained /\
    In (Division DivSampleCount 0) tr.
Proof.
  split; [reflexivity|].
  assert (H : Regressor.fit Bench.untrained Bench.trainingNoSamples = Bench.noSamplesRun)
    by reflexivity.
  unfold Bench.noSamplesRun in H.
  do 2 eexists. split; [exact H|]. split.
  - intros Heq. apply (f_equal Regressor.d_learningRate) in Heq. discriminate Heq.
  - left. reflexivity.
Qed.

Section FitNoSamples.
Context `{E : External}.

(** C2, as amended: [fit] does not look at the number of samples before it
    works.  When it is called with an empty sample set and returns, it has
    overwritten the learning rate, the mean shape, the tree list (now
    [numTrees] long) and the pixel coordinates and anchors (those sampled in
    this call), it has divided the zero residual sum by the sample count 0
    with no guard and stored the quotient as the mean residual, and it
    returns [false]. *)
Theorem fit_no_samples_runs_through (d : Regressor.data) (t : Regressor.RegressorTraining)
        (r : Regressor.FitResult) (tr : ExecTrace) :
  Regressor.r_samples t = [] ->
  Regressor.fit d t = Some (r, tr) ->
  Regressor.fit_return r = false /\
  Regressor.d_learningRate (Regressor.fit_data r)
  = learningRate (Regressor.td_params (Regressor.r_trainingData t)) /\
  Regressor.d_meanShape (Regressor.fit_data r) = Regressor.r_meanShape t /\
  length (Regressor.d_trees (Regressor.fit_data r))
  = Z.to_nat (numTrees (Regressor.td_params (Regressor.r_trainingData t))) /\
  (exists pixelCoordinates rnd,
      Regressor.sampleCoordinates t = Some ((pixelCoordinates, rnd), []) /\
      shapeRelativePixelCoordinates (Regressor.r_meanShape t) pixelCoordinates
      = Some (Regressor.d_shapeRelativePixelCoordinates (Regressor.fit_data r),
              Regressor.d_closestShapeLandmark (Regressor.fit_data r))) /\
  Regressor.d_meanResidual (Regressor.fit_data r)
  = shape_divs (shape_zero (Z.to_nat (Regressor.r_numLandmarks t))) 0 /\
  In (Division DivSampleCount 0) tr.
Proof.
  intros Hempty H. apply fit_Some in H. cbv zeta in H.
  destruct H as (HK & HL & pc & rnd1 & tr1 & rel & cl & total & init & tr2 & st & tr3 & H).
  destruct H as (Hsample & Hrel & Hprep & Hloop & -> & ->).
  rewrite Hempty in *. simpl in Hprep. injection Hprep as <- <- <-.
  apply boostLoop_length in Hloop. simpl in Hloop. rewrite resize_length in Hloop.
  pose proof (sampleCoordinates_Some _ _ _ _ Hsample) as (_ & _ & _ & _ & _ & _ & ->).
  cbn [Regressor.fit_data Regressor.fit_return Regressor.d_learningRate
       Regressor.d_meanResidual Regressor.d_trees Regressor.d_meanShape
       Regressor.d_shapeRelativePixelCoordinates Regressor.d_closestShapeLandmark].
  split; [reflexivity|]. split; [reflexivity|]. split; [reflexivity|].
  split; [exact Hloop|].
  split; [exists pc, rnd1; split; assumption|].
  split; [reflexivity|].
  left. reflexivity.
Qed.

End FitNoSamples.

Lemma fit_no_samples_runs_through_witness :
  Regressor.r_samples Bench.trainingNoSamples = [] /\
  exists r tr,
    Regressor.fit Bench.untrained Bench.trainingNoSamples = Some (r, tr) /\
    Regressor.fit_return r = false /\
    Regressor.d_learningRate (Regressor.fit_data r) = Bench.q 1 2 /\
    Regressor.d_meanShape (Regressor.fit_data r) = Bench.kite /\
    length (Regressor.d_trees (Regressor.fit_data r)) = 2%nat /\
    (exists pixelCoordinates rnd,
        Regressor.sampleCoordinates Bench.trainingNoSamples
        = Some ((pixelCoordinates, rnd), []) /\
        shapeRelativePixelCoordinates Bench.kite pixelCoordinates
        = Some (Regressor.d_shapeRelativePixelCoordinates (Regressor.fit_data r),
                Regressor.d_closestShapeLandmark (Regressor.fit_data r))) /\
    Regressor.d_meanResidual (Regressor.fit_data r) = shape_divs (shape_zero 4) 0 /\
    In (Division DivSampleCount 0) tr.
Proof.
  split; [reflexivity|].
  assert (H : Regressor.fit Bench.untrained Bench.trainingNoSamples = Bench.noSamplesRun)
    by reflexivity.
  unfold Bench.noSamplesRun in H.
  do 2 eexists. split; [exact H|].
  exact (fit_no_samples_runs_through Bench.untrained Bench.trainingNoSamples _ _ eq_refl H).
Defined.

(** ** Regressor::sampleCoordinates *)

(** C1, the code at a failing input: the mean shape with the two landmarks
    (0, 0) and (1, 1), one coordinate to draw, and a random source whose two
    draws are the middle of their intervals.  The bounding box is
    [0, 1] x [0, 1]; the coordinate produced is (1/2, 3/2), above the box:
    the y component is drawn from [maxC.y() + dy], not [minC.y() + dy]. *)
Theorem sampleCoordinates_above_bounding_box :
  exists coords rnd minC maxC p,
    Regressor.sampleCoordinates Bench.sampling = Some ((coords, rnd), []) /\
    rowwise_minCoeff (Regressor.r_meanShape Bench.sampling) = Some minC /\
    rowwise_maxCoeff (Regressor.r_meanShape Bench.sampling) = Some maxC /\
    In p coords /\
    vx minC <= vx p /\ vx p <= vx maxC /\
    vy maxC < vy p.
Proof.
  assert (H : Regressor.sampleCoordinates Bench.sampling = Bench.samplingRun)
    by reflexivity.
  unfold Bench.samplingRun in H.
  do 5 eexists. split; [exact H|].
  split; [reflexivity|]. split; [reflexivity|].
  split; [left; reflexivity|].
  repeat split; reflexivity.
Qed.

(** ** Zeros and NaN through the operations *)

Lemma zeroOrNaN_mul_l (x y : float) : zeroOrNaN x = true -> zeroOrNaN (x * y) = true.
Proof. destruct x, y; try discriminate; reflexivity. Qed.

Lemma zeroOrNaN_mul_r (x y : float) : zeroOrNaN y = true -> zeroOrNaN (x * y) = true.
Proof. destruct x, y; try discriminate; reflexivity. Qed.

Lemma zeroOrNaN_add (x y : float) :
  zeroOrNaN x = true -> zeroOrNaN y = true -> zeroOrNaN (x + y) = true.
Proof. destruct x as [[|]| | |], y as [[|]| | |]; try discriminate; reflexivity. Qed.

Lemma zeroOrNaN_sub (x y : float) :
  zeroOrNaN x = true -> zeroOrNaN y = true -> zeroOrNaN (x - y) = true.
Proof. destruct x as [[|]| | |], y as [[|]| | |]; try discriminate; reflexivity. Qed.

Lemma zeroOrNaN_div_l (x y : float) : zeroOrNaN x = true -> zeroOrNaN (x / y) = true.
Proof. destruct x, y; try discriminate; reflexivity. Qed.

Lemma zeroOrNaN_not_positive (x : float) : zeroOrNaN x = true -> (0 <? x) = false.
Proof. destruct x; try discriminate; reflexivity. Qed.

Lemma zeroOrNaN_not_negative (x : float) : zeroOrNaN x = true -> (x <? 0) = false.
Proof. destruct x; try discriminate; reflexivity. Qed.

Lemma isZero_zeroOrNaN (x : float) : isZero x = true -> zeroOrNaN x = true.
Proof. unfold zeroOrNaN. intros ->. reflexivity. Qed.

Lemma mzeroOrNaN_spec (m : Matrix2f) :
  mzeroOrNaN m = true <->
  zeroOrNaN (m00 m) = true /\ zeroOrNaN (m01 m) = true /\
  zeroOrNaN (m10 m) = true /\ zeroOrNaN (m11 m) = true.
Proof. unfold mzeroOrNaN. rewrite !andb_true_iff. tauto. Qed.

Lemma isZeroVector_spec (p : Vector2f) :
  isZeroVector p = true <-> isZero (vx p) = true /\ isZero (vy p) = true.
Proof. unfold isZeroVector. apply andb_true_iff. Qed.

Lemma outer_zeroOrNaN (p q : Vector2f) :
  isZeroVector p = true -> mzeroOrNaN (outer p q) = true.
Proof.
  rewrite isZeroVector_spec, mzeroOrNaN_spec. intros [Hx Hy]. cbn [outer m00 m01 m10 m11].
  repeat split; apply zeroOrNaN_mul_l, isZero_zeroOrNaN; assumption.
Qed.

Lemma madd_zeroOrNaN (a b : Matrix2f) :
  mzeroOrNaN a = true -> mzeroOrNaN b = true -> mzeroOrNaN (madd a b) = true.
Proof.
  rewrite !mzeroOrNaN_spec. intros (A0 & A1 & A2 & A3) (B0 & B1 & B2 & B3).
  cbn [madd m00 m01 m10 m11]. repeat split; apply zeroOrNaN_add; assumption.
Qed.

Lemma fold_madd_zeroOrNaN (l : list Matrix2f) :
  forall acc, mzeroOrNaN acc = true -> Forall (fun m => mzeroOrNaN m = true) l ->
              mzeroOrNaN (fold_left madd l acc) = true.
Proof.
  induction l as [|m l IH]; intros acc Hacc Hall; simpl; [exact Hacc|].
  inversion Hall; subst. apply IH; [apply madd_zeroOrNaN|]; assumption.
Qed.

Lemma mul_transpose_zeroOrNaN (a b : Shape) :
  Forall (fun p => isZeroVector p = true) a -> mzeroOrNaN (mul_transpose a b) = true.
Proof.
  intros Ha. unfold mul_transpose.
  assert (Hall : Forall (fun m => mzeroOrNaN m = true) (map2 outer a b)).
  { revert b. induction Ha as [|p a Hp Ha IH]; intros [|q b]; simpl; constructor.
    - apply outer_zeroOrNaN. exact Hp.
    - apply IH. }
  destruct (map2 outer a b) as [|m l]; [reflexivity|].
  inversion Hall; subst. cbn [reduce]. apply fold_madd_zeroOrNaN; assumption.
Qed.

Lemma fold_add_zeroOrNaN (l : list float) :
  forall acc, zeroOrNaN acc = true -> Forall (fun x => zeroOrNaN x = true) l ->
              zeroOrNaN (fold_left F32.add l acc) = true.
Proof.
  induction l as [|x l IH]; intros acc Hacc Hall; simpl; [exact Hacc|].
  inversion Hall; subst. apply IH; [apply zeroOrNaN_add|]; assumption.
Qed.

Lemma squaredNorm_zeroOrNaN (c : Shape) :
  Forall (fun p => isZeroVector p = true) c -> zeroOrNaN (squaredNorm c) = true.
Proof.
  intros Hc. unfold squaredNorm.
  assert (Hall : Forall (fun x => zeroOrNaN x = true)
                        (flat_map (fun p => [vx p * vx p; vy p * vy p]) c)).
  { induction Hc as [|p c Hp Hc IH]; simpl; [constructor|].
    apply isZeroVector_spec in Hp. destruct Hp as [Hx Hy].
    constructor; [apply zeroOrNaN_mul_l, isZero_zeroOrNaN; exact Hx|].
    constructor; [apply zeroOrNaN_mul_l, isZero_zeroOrNaN; exact Hy | exact IH]. }
  destruct (flat_map _ c) as [|x l]; [reflexivity|].
  inversion Hall; subst. cbn [reduce]. apply fold_add_zeroOrNaN; assumption.
Qed.

Lemma determinant_zeroOrNaN (m : Matrix2f) :
  mzeroOrNaN m = true -> zeroOrNaN (determinant m) = true.
Proof.
  rewrite mzeroOrNaN_spec. intros (H0 & H1 & H2 & H3). unfold determinant.
  apply zeroOrNaN_sub; apply zeroOrNaN_mul_l; assumption.
Qed.

Lemma mdivs_zeroOrNaN (m : Matrix2f) (n : float) :
  mzeroOrNaN m = true -> mzeroOrNaN (mdivs m n) = true.
Proof.
  rewrite !mzeroOrNaN_spec. intros (H0 & H1 & H2 & H3). cbn [mdivs m00 m01 m10 m11].
  repeat split; apply zeroOrNaN_div_l; assumption.
Qed.

(** ** Traces *)

Lemma divisorsNonZero_app (a b : ExecTrace) :
  divisorsNonZero (a ++ b) <-> divisorsNonZero a /\ divisorsNonZero b.
Proof.
  unfold divisorsNonZero. split.
  - intros H. split; intros site d Hin; apply (H site d), in_or_app; auto.
  - intros [Ha Hb] site d Hin. apply in_app_or in Hin. destruct Hin; eauto.
Qed.

Lemma divisorsNonZero_nil : divisorsNonZero [].
Proof. intros site d []. Qed.

(** ** The divisions of estimateSimilarityTransform *)

Section AlignmentDivisions.
Context `{E : External}.

(** A run on a source shape with at least one landmark divides by no
    zero: the column counts are positive, and the variance is divided by
    only when it is positive. *)
Lemma estimateAlignment_divisors (from to : Shape) (al : Alignment) (tr : ExecTrace) :
  from <> [] -> estimateAlignment from to = Some (al, tr) -> divisorsNonZero tr.
Proof.
  intros Hne H. apply estimateAlignment_Some in H. cbv zeta in H.
  destruct H as (Hlen & _ & ->).
  assert (Hn : isZero (float_of_nat (length from)) = false).
  { destruct from as [|p from]; [congruence|]. apply float_of_nat_nonzero. }
  intros site d Hin. apply in_app_or in Hin. destruct Hin as [Hin | Hin].
  - rewrite <- Hlen in Hin.
    destruct Hin as [Heq | [Heq | [Heq | [Heq | []]]]]; injection Heq as <- <-; exact Hn.
  - destruct (0 <? _) eqn:Hpos; [|destruct Hin].
    destruct Hin as [Heq | []]. injection Heq as <- <-.
    apply ltb_zero_nonzero. exact Hpos.
Qed.

(** The division by the source variance is guarded. *)
Lemma variance_division_guarded (from to : Shape) (al : Alignment) (tr : ExecTrace)
      (d : float) :
  estimateAlignment from to = Some (al, tr) ->
  In (Division DivSourceVariance d) tr -> d = al_sFrom al /\ 0 < d.
Proof.
  intros H Hin. apply estimateAlignment_Some in H. cbv zeta in H.
  destruct H as (_ & -> & ->). cbn [al_sFrom].
  apply in_app_or in Hin. destruct Hin as [Hin | Hin].
  - destruct Hin as [Heq | [Heq | [Heq | [Heq | []]]]]; discriminate Heq.
  - destruct (0 <? _) eqn:Hpos; [|destruct Hin].
    destruct Hin as [Heq | []]. injection Heq as <-. split; [reflexivity | exact Hpos].
Qed.

End AlignmentDivisions.

(** With no landmark at all, the four divisions by the column count divide
    by zero. *)
Lemma estimateAlignment_no_landmarks :
  exists al tr,
    estimateAlignment (E := Bench.bench) [] [] = Some (al, tr) /\
    In (Division DivMean 0) tr /\ In (Division DivCovCount 0) tr /\
    In (Division DivVarianceCount 0) tr.
Proof.
  do 2 eexists. split; [reflexivity|].
  repeat split; simpl; auto.
Qed.

(** ** estimateSimilarityTransform: the reflection correction *)

Section ProperRotation.
Context `{E : External}.


End ProperRotation.


(** On the kite and its mirror image the covariance is diagonal with a
    negative determinant, the second entry of [s] is flipped, and [rot] has
    the determinant 1. *)
Lemma kite_mirror_rotation :
  exists al tr,
    estimateAlignment (E := Bench.bench) Bench.kite Bench.kiteMirrored = Some (al, tr) /\
    determinant (al_cov al) < 0 /\
    al_s al = mkM 1 0 0 (-(1)) /\
    determinant (al_rot al) = 1.
Proof.
  assert (H : estimateAlignment (E := Bench.bench) Bench.kite Bench.kiteMirrored = Bench.mirrorRun)
    by reflexivity.
  unfold Bench.mirrorRun in H.
  do 2 eexists. split; [exact H|]. repeat split.
Qed.

(** [Bench.invSqrt2] is the float nearest to the square root of 1/2: its
    square is below 1/2, and the square of the midpoint to the next float,
    which is half a unit in the last place above it, is above 1/2. *)
Lemma invSqrt2_nearest :
  F32.toQ Bench.invSqrt2 = Some (11863283 # 16777216)%Q /\
  ((11863283 # 16777216) * (11863283 # 16777216) < 1 # 2)%Q /\
  (1 # 2 < (23726567 # 33554432) * (23726567 # 33554432))%Q.
Proof. repeat split. Qed.


(** ** estimateSimilarityTransform of a shape and itself *)

Section SelfAlignment.
Context `{E : External}.


End SelfAlignment.


(** On that kite the whole transform is the identity. *)
Lemma flat_kite_self_identity :
  exists a tr,
    estimateSimilarityTransform (E := Bench.bench) Bench.kiteFlat Bench.kiteFlat
    = Some (a, tr) /\
    linear a = midentity /\ translation a = vzero.
Proof. do 2 eexists. split; [vm_compute; reflexivity|]. split; reflexivity. Qed.


(** ** estimateSimilarityTransform on a source without variance *)

Section ZeroVariance.
Context `{E : External}.

Lemma centered_zero_variance (from to : Shape) (al : Alignment) (tr : ExecTrace) :
  estimateAlignment from to = Some (al, tr) ->
  (forall p, In p from -> isZeroVector (vsub p (al_meanFrom al)) = true) ->
  zeroOrNaN (al_sFrom al) = true /\ mzeroOrNaN (al_cov al) = true.
Proof.
  intros H Hzero. apply estimateAlignment_Some in H. cbv zeta in H.
  destruct H as (_ & -> & _). cbn [al_meanFrom al_sFrom al_cov] in *.
  assert (Hc : Forall (fun p => isZeroVector p = true)
                 (map (fun p => vsub p (vdivs (colwise_sum from) (float_of_nat (length from))))
                      from)).
  { apply Forall_map, Forall_forall. exact Hzero. }
  split.
  - apply zeroOrNaN_div_l, squaredNorm_zeroOrNaN. exact Hc.
  - apply mdivs_zeroOrNaN, mul_transpose_zeroOrNaN. exact Hc.
Qed.

(** C7, as amended: in every run of [estimateSimilarityTransform] that
    returns, the division by the source variance [sFrom] is executed only
    when [sFrom > 0], and when the source shape has a landmark no division
    of the run has a zero divisor (with no landmark the divisions by the
    column count divide by zero).  When every source landmark minus the
    computed mean is zero in both coordinates (the landmarks coincide and
    the rounded mean is that landmark), [sFrom] is not positive, the scale
    is 1 and the division by [sFrom] is not executed; if moreover the SVD
    returns [U = V = identity] on the covariance, whose entries are then
    zeros or NaN, [rot] and the linear part of the result are the
    identity. *)
Theorem estimateSimilarityTransform_zero_variance (from to : Shape) (al : Alignment)
        (tr : ExecTrace) :
  estimateAlignment from to = Some (al, tr) ->
  (forall d, In (Division DivSourceVariance d) tr -> d = al_sFrom al /\ 0 < d) /\
  (from <> [] -> divisorsNonZero tr) /\
  ((forall p, In p from -> isZeroVector (vsub p (al_meanFrom al)) = true) ->
   (0 <? al_sFrom al) = false /\
   al_c al = 1 /\
   (forall d, ~ In (Division DivSourceVariance d) tr) /\
   (matrixU (al_svd al) = midentity -> matrixV (al_svd al) = midentity ->
    al_s al = midentity /\ al_rot al = midentity /\
    mscale (al_c al) (al_rot al) = midentity)).
Proof.
  intros H.
  split; [intros d; apply (variance_division_guarded _ _ _ _ _ H)|].
  split; [intros Hne; apply (estimateAlignment_divisors _ _ _ _ Hne H)|].
  intros Hzero.
  destruct (centered_zero_variance _ _ _ _ H Hzero) as [HsFrom Hcov].
  pose proof (zeroOrNaN_not_positive _ HsFrom) as Hguard.
  assert (Hnodiv : forall d, ~ In (Division DivSourceVariance d) tr).
  { intros d Hin. destruct (variance_division_guarded _ _ _ _ _ H Hin) as [-> Hpos].
    congruence. }
  pose proof (zeroOrNaN_not_negative _ (determinant_zeroOrNaN _ Hcov)) as Hdet.
  apply estimateAlignment_Some in H. cbv zeta in H.
  destruct H as (_ & -> & _).
  cbn [al_svd al_cov al_rot al_s al_c al_sFrom] in *.
  rewrite Hguard.
  split; [reflexivity|]. split; [reflexivity|]. split; [exact Hnodiv|].
  intros HU HV. unfold reflectionCorrection. rewrite Hdet, HU, HV. cbn [orb].
  assert (HUV : (determinant midentity * determinant midentity <? 0) = false)
    by reflexivity.
  rewrite HUV, andb_false_r. repeat split.
Qed.

End ZeroVariance.

(** Two landmarks at (3, 5), aligned with the landmarks (0, 0) and (1, 1):
    the mean of the source is (3, 5), every centred landmark is zero, and
    the SVD of the zero covariance returns [U = V = identity]. *)
Lemma estimateSimilarityTransform_zero_variance_witness :
  exists al tr,
    estimateAlignment (E := Bench.bench) Bench.coincident Bench.diagonalPair
    = Some (al, tr) /\
    (forall p, In p Bench.coincident -> isZeroVector (vsub p (al_meanFrom al)) = true) /\
    matrixU (al_svd al) = midentity /\
    matrixV (al_svd al) = midentity /\
    (forall d, In (Division DivSourceVariance d) tr -> d = al_sFrom al /\ 0 < d) /\
    divisorsNonZero tr /\
    (0 <? al_sFrom al) = false /\
    al_c al = 1 /\
    (forall d, ~ In (Division DivSourceVariance d) tr) /\
    al_s al = midentity /\ al_rot al = midentity /\
    mscale (al_c al) (al_rot al) = midentity.
Proof.
  assert (H : estimateAlignment (E := Bench.bench) Bench.coincident Bench.diagonalPair
              = Bench.coincidentRun) by reflexivity.
  unfold Bench.coincidentRun in H.
  do 2 eexists. split; [exact H|].
  assert (Hzero : forall p, In p Bench.coincident ->
                            isZeroVector (vsub p (mkV (Bench.q 3 1) (Bench.q 5 1))) = true)
    by (intros p [<- | [<- | []]]; reflexivity).
  assert (Hne : Bench.coincident <> []) by discriminate.
  pose proof (estimateSimilarityTransform_zero_variance (E := Bench.bench) _ _ _ _ H)
    as (Hguard & Hdiv & Hflat).
  destruct (Hflat Hzero) as (Hpos & Hc & Hnone & Hrot).
  destruct (Hrot eq_refl eq_refl) as (Hs & Hr & Hlin).
  split; [exact Hzero|]. split; [reflexivity|]. split; [reflexivity|].
  split; [exact Hguard|]. split; [exact (Hdiv Hne)|].
  split; [exact Hpos|]. split; [exact Hc|]. split; [exact Hnone|].
  split; [exact Hs|]. split; [exact Hr | exact Hlin].
Defined.

(** C7, counterexample: three landmarks at (1.7f, 0), where 1.7f is the
    float nearest to 17/10, aligned with three landmarks at the origin.
    The sum of the three x coordinates, rounded twice, over 3, rounded, is
    the next float above 1.7f: the centred landmarks are not zero, the
    source variance [sFrom] comes out as 2^-46, which is positive, and the
    division by it is executed.  The destination has no variance either,
    the singular values are zero, and the scale is 0, not 1. *)
Lemma estimateSimilarityTransform_coincident_rounded :
  let p := mkV (Bench.q 17 10) 0 in
  exists a tr al,
    estimateSimilarityTransform (E := Bench.bench) (Bench.thrice p) (Bench.thrice (mkV 0 0)) = Some (a, tr) /\
    estimateAlignment (E := Bench.bench) (Bench.thrice p) (Bench.thrice (mkV 0 0)) = Some (al, tr) /\
    F32.toQ (vx p) = Some (7130317 # 4194304)%Q /\
    F32.toQ (vx (al_meanFrom al)) = Some (14260635 # 8388608)%Q /\
    F32.toQ (al_sFrom al) = Some (1 # 70368744177664)%Q /\
    0 < al_sFrom al /\
    In (Division DivSourceVariance (al_sFrom al)) tr /\
    al_c al = 0 /\
    al_c al <> 1 /\
    linear a <> midentity.
Proof.
  cbv zeta.
  assert (H : estimateAlignment (E := Bench.bench) (Bench.thrice (mkV (Bench.q 17 10) 0))
                                (Bench.thrice (mkV 0 0))
              = Bench.thriceRun) by reflexivity.
  unfold Bench.thriceRun in H.
  do 3 eexists. split; [|split; [exact H|]].
  - unfold estimateSimilarityTransform. rewrite H. reflexivity.
  - repeat split; try (vm_compute; congruence).
    simpl. do 4 right. left. reflexivity.
Qed.

(** * Further properties of [shape.cpp] and [regressor.cpp] *)

(** ** [findClosestLandmarkIndex]: the sentinel and the range of the result *)

(** X2: [findClosestLandmarkIndex] returns -1 exactly when no landmark has a
    squared distance, as the code computes it in floats, below [FLT_MAX]
    (on a shape without landmarks, for one, or when every squared distance
    overflows or is NaN), and the index of a column of the shape
    otherwise. *)
Theorem findClosestLandmarkIndex_sentinel (s : Shape) (x : Vector2f) :
  (findClosestLandmarkIndex s x = (-1)%Z <->
   forall p, In p s -> (vsquaredNorm (vsub p x) <? FLT_MAX) = false) /\
  (findClosestLandmarkIndex s x = (-1)%Z \/
   (0 <= findClosestLandmarkIndex s x < Z.of_nat (length s))%Z).
Proof.
  destruct (landmark_within_reach s x) as [Hfar | Hnear].
  - pose proof (findClosestLandmarkIndex_none s x Hfar) as H.
    split; [split; [intros _; exact Hfar | intros _; exact H] | left; exact H].
  - destruct (findClosestLandmarkIndex_col s x Hnear) as (i & p & Hi & Hlt & _ & _).
    split.
    + split.
      * intros H. rewrite H in Hi. lia.
      * intros Hfar. destruct Hnear as (q & Hq & Hd).
        specialize (Hfar q Hq). unfold dist2 in Hd. congruence.
    + right. rewrite Hi. lia.
Qed.

(** ** [shapeRelativePixelCoordinates]: when it fails, and what it returns *)

Lemma col_Some (s : Shape) (i : Z) (p : Vector2f) :
  col s i = Some p -> (0 <= i < Z.of_nat (length s))%Z /\ nth_error s (Z.to_nat i) = Some p.
Proof.
  unfold col. destruct (Z.ltb_spec i 0) as [|Hi]; [discriminate|]. intros H.
  split; [|exact H].
  assert (Z.to_nat i < length s)%nat by (apply nth_error_Some; congruence). lia.
Qed.

Lemma col_map (f : Vector2f -> Vector2f) (s : Shape) (i : Z) :
  col (map f s) i = option_map f (col s i).
Proof. unfold col. destruct (i <? 0)%Z; [reflexivity | apply nth_error_map]. Qed.

Lemma shapeRelativePixelCoordinates_Some (s : Shape) :
  forall (abscoords relcoords : PixelCoordinates) (closest : list Z),
    shapeRelativePixelCoordinates s abscoords = Some (relcoords, closest) ->
    length relcoords = length abscoords /\
    length closest = length abscoords /\
    anchorsWithin (length s) closest.
Proof.
  induction abscoords as [|a rest IH]; intros rel cl H; cbn [shapeRelativePixelCoordinates] in H.
  - injection H as <- <-. repeat split. constructor.
  - destruct (col s (findClosestLandmarkIndex s a)) as [p|] eqn:Hc; [|discriminate].
    destruct (shapeRelativePixelCoordinates s rest) as [[rel' cl']|] eqn:Hr; [|discriminate].
    injection H as <- <-. destruct (IH _ _ eq_refl) as (H1 & H2 & H3).
    cbn [length]. repeat split; [congruence | congruence |].
    constructor; [exact (proj1 (col_Some _ _ _ Hc)) | exact H3].
Qed.


(** X4: [shapeRelativePixelCoordinates] fails exactly when one of the
    coordinates has no landmark at a squared distance, as the code computes
    it in floats, below [FLT_MAX]; a shape without landmarks makes it fail
    on the first coordinate. *)
Theorem shapeRelativePixelCoordinates_fails_iff (s : Shape) (abscoords : PixelCoordinates) :
  shapeRelativePixelCoordinates s abscoords = None <->
  exists a, In a abscoords /\
            forall p, In p s -> (vsquaredNorm (vsub p a) <? FLT_MAX) = false.
Proof.
  induction abscoords as [|a rest IH]; cbn [shapeRelativePixelCoordinates].
  - split; [discriminate | intros (a & [] & _)].
  - destruct (landmark_within_reach s a) as [Hfar | Hnear].
    + rewrite (findClosestLandmarkIndex_none s a Hfar). cbn.
      split; [intros _ | reflexivity]. exists a. split; [left; reflexivity | exact Hfar].
    + destruct (findClosestLandmarkIndex_col s a Hnear) as (i & p & _ & _ & Hc & _).
      rewrite Hc.
      destruct (shapeRelativePixelCoordinates s rest) as [[rel cl]|].
      * split; [discriminate|]. intros (b & [<- | Hb] & Hfar).
        -- destruct Hnear as (q & Hq & Hd). specialize (Hfar q Hq).
           unfold dist2 in Hd. congruence.
        -- destruct IH as [_ IH]. discriminate IH. exists b. split; assumption.
      * split; [intros _ | reflexivity].
        destruct IH as [IH _]. destruct (IH eq_refl) as (b & Hb & Hfar).
        exists b. split; [right; exact Hb | exact Hfar].
Qed.

(** ** [estimateSimilarityTransform]: what it divides by *)

Section TransformDivisions.
Context `{E : External}.

(** X5: a run of [estimateSimilarityTransform] on shapes with at least one
    landmark never divides by zero: the landmark counts are positive, and
    the division by the source variance is made only when that variance is
    positive. *)
Theorem estimateSimilarityTransform_divisors (from to : Shape) (a : AffineCompact2f)
        (tr : ExecTrace) :
  from <> [] ->
  estimateSimilarityTransform from to = Some (a, tr) ->
  divisorsNonZero tr.
Proof.
  intros Hne H. apply estimateSimilarityTransform_Some in H. destruct H as (al & H & _).
  intros site d Hin.
  exact (estimateAlignment_divisors _ _ _ _ Hne H site d Hin).
Qed.

End TransformDivisions.

Lemma estimateSimilarityTransform_divisors_witness :
  Bench.kite <> [] /\
  exists a tr,
    estimateSimilarityTransform (E := Bench.bench) Bench.kite Bench.kiteMirrored
    = Some (a, tr) /\
    divisorsNonZero tr.
Proof.
  assert (Hne : Bench.kite <> []) by discriminate.
  assert (H : estimateSimilarityTransform (E := Bench.bench) Bench.kite Bench.kiteMirrored
              = Bench.mirrorTransformRun) by reflexivity.
  unfold Bench.mirrorTransformRun in H.
  split; [exact Hne|].
  do 2 eexists. split; [exact H|].
  exact (estimateSimilarityTransform_divisors _ _ _ _ Hne H).
Defined.

(** ** [readPixelIntensities]: when it reads outside the shape *)

Lemma anchorCoordinates_returns_iff (s : Shape) :
  forall (closest : list Z) (coords : PixelCoordinates),
    (exists coords', Regressor.anchorCoordinates s closest coords = Some coords') <->
    (length coords <= length closest)%nat /\
    anchorsWithin (length s) (firstn (length coords) closest).
Proof.
  intros closest coords. revert closest.
  induction coords as [|c coords IH]; intros [|i cl];
    cbn [Regressor.anchorCoordinates length firstn].
  - split; [intros _; split; [lia | constructor] | intros _; eexists; reflexivity].
  - split; [intros _; split; [lia | constructor] | intros _; eexists; reflexivity].
  - split; [intros (x & Hx); discriminate | intros [Hl _]; lia].
  - specialize (IH cl). split.
    + intros (x & Hx).
      destruct (col s i) as [p|] eqn:Hp; [|discriminate].
      destruct (Regressor.anchorCoordinates s cl coords) as [rest|] eqn:Hr; [|discriminate].
      destruct (proj1 IH (ex_intro _ rest eq_refl)) as [Hl Ha].
      split; [lia|]. constructor; [exact (proj1 (col_Some _ _ _ Hp)) | exact Ha].
    + intros [Hl Ha]. inversion Ha as [|? ? Hi Hcl]; subst.
      destruct (proj2 IH (conj (le_S_n _ _ Hl) Hcl)) as (rest & Hrest).
      rewrite Hrest. unfold col.
      destruct (Z.ltb_spec i 0) as [|_]; [lia|].
      destruct (nth_error s (Z.to_nat i)) as [p|] eqn:Hp.
      * eexists. reflexivity.
      * apply nth_error_None in Hp. lia.
Qed.

Section ReadPixelIntensitiesRange.
Context `{E : External}.

(** X11: [readPixelIntensities] returns exactly when the regressor holds an
    anchor for every stored offset and each of these anchors is the index
    of a column of the shape it is given; otherwise it indexes outside the
    anchor vector or outside the shape.  The transform and the image play
    no part in that. *)
Theorem readPixelIntensities_returns_iff (d : Regressor.data) (trans : AffineCompact2f)
        (s : Shape) (img : Image) :
  (exists intensities, Regressor.readPixelIntensities d trans s img = Some intensities) <->
  (length (Regressor.d_shapeRelativePixelCoordinates d)
   <= length (Regressor.d_closestShapeLandmark d))%nat /\
  anchorsWithin (length s)
    (firstn (length (Regressor.d_shapeRelativePixelCoordinates d))
            (Regressor.d_closestShapeLandmark d)).
Proof.
  unfold Regressor.readPixelIntensities.
  pose proof (anchorCoordinates_returns_iff s (Regressor.d_closestShapeLandmark d)
                (map (mvec (linear trans)) (Regressor.d_shapeRelativePixelCoordinates d)))
    as H.
  rewrite length_map in H. rewrite <- H.
  destruct (Regressor.anchorCoordinates _ _ _) as [coords|].
  - split; intros _; eexists; reflexivity.
  - split; intros (x & Hx); discriminate.
Qed.

End ReadPixelIntensitiesRange.

(** ** What [fit] asks of the training set, and what it does not read *)

Lemma bind_ext {A B} (m : Exec A) (f g : A -> Exec B) :
  (forall a, f a = g a) -> bind m f = bind m g.
Proof. intros H. unfold bind. destruct m as [[a l]|]; [rewrite H|]; reflexivity. Qed.

Section FitRequirements.
Context `{E : External}.

Lemma prepareSamples_frozen (d d' : Regressor.data) (t : Regressor.RegressorTraining)
      (samples : list Regressor.RSample) :
  Regressor.d_shapeRelativePixelCoordinates d = Regressor.d_shapeRelativePixelCoordinates d' ->
  Regressor.d_closestShapeLandmark d = Regressor.d_closestShapeLandmark d' ->
  forall acc, Regressor.prepareSamples d t samples acc
              = Regressor.prepareSamples d' t samples acc.
Proof.
  intros Hrel Hcl.
  induction samples as [|smp rest IH]; intros acc; cbn [Regressor.prepareSamples];
    [reflexivity|].
  cbv zeta. repeat (apply bind_ext; intros ?).
  unfold Regressor.readPixelIntensities. rewrite Hrel, Hcl.
  apply bind_ext; intros ?. rewrite IH. reflexivity.
Qed.

(** X12: [fit] reads nothing of what the regressor held before but its trees
    (which [resize] keeps and [Tree::fit] is called on): two regressors
    with the same trees are fit alike, whatever their coordinates, anchors,
    mean residual, mean shape and learning rate were. *)
Theorem fit_ignores_previous_state (d d' : Regressor.data)
        (t : Regressor.RegressorTraining) :
  Regressor.d_trees d = Regressor.d_trees d' ->
  Regressor.fit d t = Regressor.fit d' t.
Proof.
  intros Htrees. unfold Regressor.fit. cbv zeta. rewrite Htrees.
  destruct (numTrees _ <? 0)%Z; [reflexivity|].
  apply bind_ext; intros [pc rnd1]. apply bind_ext; intros [rel cl].
  destruct (Regressor.r_numLandmarks t <? 0)%Z; [reflexivity|].
  match goal with
  | |- bind (Regressor.prepareSamples ?a _ _ _) _ = bind (Regressor.prepareSamples ?b _ _ _) _ =>
      rewrite (prepareSamples_frozen a b t (Regressor.r_samples t) eq_refl eq_refl)
  end.
  reflexivity.
Qed.

(** X13: a run of [fit] returns only on a consistent training set: the index of
    every sample is within the shapes and within the images, and its
    ground truth, its estimate and the mean shape all have [numLandmarks]
    landmarks. *)
Theorem fit_sample_requirements (d : Regressor.data) (t : Regressor.RegressorTraining)
        (r : Regressor.FitResult) (tr : ExecTrace) :
  Regressor.fit d t = Some (r, tr) ->
  Forall (fun smp =>
            exists (groundTruth : Shape) (img : Image),
              nth_error (Regressor.td_shapes (Regressor.r_trainingData t))
                        (Regressor.rs_idx smp) = Some groundTruth /\
              nth_error (Regressor.td_images (Regressor.r_trainingData t))
                        (Regressor.rs_idx smp) = Some img /\
              Z.of_nat (length groundTruth) = Regressor.r_numLandmarks t /\
              Z.of_nat (length (Regressor.rs_estimate smp)) = Regressor.r_numLandmarks t /\
              Z.of_nat (length (Regressor.r_meanShape t)) = Regressor.r_numLandmarks t)
         (Regressor.r_samples t).
Proof.
  intros H. apply fit_Some in H. cbv zeta in H.
  destruct H as (HK & HL & pc & rnd1 & tr1 & rel & cl & total & init & tr2 & st & tr3 & H).
  destruct H as (_ & _ & Hprep & _).
  apply prepareSamples_Some in Hprep. destruct Hprep as (Hinit & _ & Hlen & _).
  rewrite shape_zero_length in Hlen.
  revert Hlen. induction Hinit as [|smp s0 samples init' Htarget _ IH]; intros Hlen;
    constructor.
  - inversion Hlen as [|? ? Hs0 _]; subst.
    destruct Htarget as (gt & img & trans & tre & Hgt & Hlgt & Hres & Himg & Htrans & _).
    exists gt, img. split; [exact Hgt|]. split; [exact Himg|].
    assert (Hg : length gt = Z.to_nat (Regressor.r_numLandmarks t)).
    { rewrite <- Hs0, Hres. unfold shape_sub. symmetry. apply map2_length_same. exact Hlgt. }
    apply estimateSimilarityTransform_Some in Htrans. destruct Htrans as (al & Hal & _).
    apply estimateAlignment_Some in Hal. destruct Hal as (Hmean & _).
    split; [rewrite Hg; lia|]. split; [rewrite <- Hlgt, Hg; lia|].
    rewrite Hmean, <- Hlgt, Hg. lia.
  - apply IH. inversion Hlen; assumption.
Qed.

End FitRequirements.

Lemma fit_ignores_previous_state_witness :
  Regressor.d_trees Bench.untrained = Regressor.d_trees Bench.anchored /\
  Regressor.fit Bench.untrained Bench.training = Regressor.fit Bench.anchored Bench.training.
Proof.
  split; [reflexivity|].
  exact (fit_ignores_previous_state Bench.untrained Bench.anchored Bench.training eq_refl).
Defined.

Lemma fit_sample_requirements_witness :
  exists r tr,
    Regressor.fit Bench.untrained Bench.training = Some (r, tr) /\
    Forall (fun smp =>
              exists (groundTruth : Shape) (img : Image (External := Bench.bench)),
                nth_error (Regressor.td_shapes (Regressor.r_trainingData Bench.training))
                          (Regressor.rs_idx smp) = Some groundTruth /\
                nth_error (Regressor.td_images (Regressor.r_trainingData Bench.training))
                          (Regressor.rs_idx smp) = Some img /\
                Z.of_nat (length groundTruth) = 4%Z /\
                Z.of_nat (length (Regressor.rs_estimate smp)) = 4%Z /\
                Z.of_nat (length (Regressor.r_meanShape Bench.training)) = 4%Z)
           (Regressor.r_samples Bench.training).
Proof.
  assert (H : Regressor.fit Bench.untrained Bench.training = Bench.trainingRun)
    by reflexivity.
  unfold Bench.trainingRun in H.
  do 2 eexists. split; [exact H|]. exact (fit_sample_requirements _ _ _ _ H).
Defined.


Lemma fitCalls_app (a b : ExecTrace) : fitCalls (a ++ b) = fitCalls a ++ fitCalls b.
Proof.
  induction a as [|[site d | k w] a IH]; cbn [fitCalls app]; [reflexivity | exact IH |].
  rewrite IH. reflexivity.
Qed.

Lemma fitCalls_divisions (tr : ExecTrace) : Forall isDivision tr -> fitCalls tr = [].
Proof.
  induction 1 as [|[site d | k w] tr Hd _ IH]; cbn [fitCalls]; [reflexivity | exact IH |].
  destruct Hd.
Qed.

Lemma fold_shape_add_length (l : list Shape) :
  forall acc : Shape,
    Forall (fun r => length r = length acc) l ->
    length (fold_left shape_add l acc) = length acc.
Proof.
  induction l as [|r l IH]; intros acc H; cbn [fold_left]; [reflexivity|].
  inversion H as [|? ? Hr Hl]; subst.
  assert (Hacc : length (shape_add acc r) = length acc)
    by (apply map2_length_same; symmetry; exact Hr).
  rewrite IH; [exact Hacc|].
  eapply Forall_impl; [|exact Hl]. cbv beta. intros s0 Hs0. congruence.
Qed.

Lemma shape_divs_length (a : Shape) (c : float) : length (shape_divs a c) = length a.
Proof. apply length_map. Qed.

Section FitState.
Context `{E : External}.

Lemma drawCoordinates_length (minC maxC : Vector2f) :
  forall (n : nat) (rnd : Rnd),
    length (fst (Regressor.drawCoordinates n minC maxC rnd)) = n.
Proof.
  induction n as [|n IH]; intros rnd; cbn [Regressor.drawCoordinates]; [reflexivity|].
  destruct (uniform_real 0 (vx maxC - vx minC) rnd) as [x rnd1].
  destruct (uniform_real 0 (vy maxC - vy minC) rnd1) as [y rnd2].
  specialize (IH rnd2).
  destruct (Regressor.drawCoordinates n minC maxC rnd2) as [rest rnd3].
  cbn [fst length] in *. congruence.
Qed.

Lemma anchorCoordinates_returns (s : Shape) :
  forall (closest : list Z) (coords : PixelCoordinates),
    anchorsWithin (length s) closest ->
    length coords = length closest ->
    exists coords', Regressor.anchorCoordinates s closest coords = Some coords'.
Proof.
  induction closest as [|i cl IH]; intros [|c coords] Hin Hlen; try discriminate.
  - exists []. reflexivity.
  - inversion Hin as [|? ? Hi Hcl]; subst. cbn [length] in Hlen.
    destruct (IH coords Hcl) as (rest & Hrest); [congruence|].
    cbn [Regressor.anchorCoordinates]. unfold col.
    destruct (Z.ltb_spec i 0) as [|_]; [lia|].
    destruct (nth_error s (Z.to_nat i)) as [p|] eqn:Hp.
    + rewrite Hrest. eexists. reflexivity.
    + apply nth_error_None in Hp. lia.
Qed.

Lemma accumulate_returns (lr : float) (intensities : PixelIntensities) (trees : list Tree) :
  forall sr0 : ShapeResidual,
    Forall (fun t => length (Tree_predict t intensities) = length sr0) trees ->
    exists sr, Regressor.accumulate lr intensities trees sr0 = Some sr /\
               length sr = length sr0.
Proof.
  induction trees as [|tree trees IH]; intros sr0 H; cbn [Regressor.accumulate].
  - exists sr0. split; reflexivity.
  - inversion H as [|? ? Ht Hts]; subst.
    unfold same_size. rewrite shape_times_length, Ht, Nat.eqb_refl.
    assert (Hlen : length (shape_add sr0 (shape_times (Tree_predict tree intensities) lr))
                   = length sr0).
    { apply map2_length_same. rewrite shape_times_length. symmetry. exact Ht. }
    destruct (IH (shape_add sr0 (shape_times (Tree_predict tree intensities) lr)))
      as (sr & Hsr & Hl).
    + eapply Forall_impl; [|exact Hts]. cbv beta. intros t0 Ht0. congruence.
    + exists sr. split; [exact Hsr | congruence].
Qed.

Lemma boostLoop_calls (t : Regressor.RegressorTraining) (pc : PixelCoordinates)
      (m : ShapeResidual) (lr : float) :
  forall (n k : nat) (st st' : Regressor.BoostState) (tr : ExecTrace),
    Regressor.boostLoop t pc m lr n k st = Some (st', tr) ->
    fitCalls tr = seq k n /\ divisorsNonZero tr.
Proof.
  induction n as [|n IH]; intros k st st' tr H; cbn [Regressor.boostLoop] in H.
  - injection H as <- <-. split; [reflexivity | exact divisorsNonZero_nil].
  - apply bind_Some in H. destruct H as (st1 & l1 & l2 & Hstep & Hloop & ->).
    apply boostStep_Some in Hstep.
    destruct Hstep as (working & tree & _ & _ & -> & _ & _).
    apply IH in Hloop. destruct Hloop as [Hcalls Hnz].
    split.
    + cbn [app fitCalls seq]. rewrite Hcalls. reflexivity.
    + intros site d [Hin | Hin]; [discriminate | exact (Hnz site d Hin)].
Qed.

Lemma prepareSamples_divisors (d : Regressor.data) (t : Regressor.RegressorTraining)
      (samples : list Regressor.RSample) :
  Regressor.r_meanShape t <> [] ->
  forall (acc total : ShapeResidual) (tsamples : list TSample) (tr : ExecTrace),
    Regressor.prepareSamples d t samples acc = Some ((total, tsamples), tr) ->
    divisorsNonZero tr.
Proof.
  intros Hne.
  induction samples as [|smp rest IH]; intros acc total tsamples tr H; simpl in H.
  - injection H as <- <- <-. exact divisorsNonZero_nil.
  - apply bind_Some in H. destruct H as (gt & l1 & l1' & Hgt & H & ->).
    apply lift_Some in Hgt. destruct Hgt as [Hgt ->].
    apply bind_Some in H. destruct H as (res & l2 & l2' & Hres & H & ->).
    apply lift_Some in Hres. destruct Hres as [Hres ->].
    apply bind_Some in H. destruct H as (acc' & l3 & l3' & Hacc & H & ->).
    apply lift_Some in Hacc. destruct Hacc as [Hacc ->].
    apply bind_Some in H. destruct H as (trans & l4 & l4' & Htrans & H & ->).
    apply bind_Some in H. destruct H as (img & l5 & l5' & Himg & H & ->).
    apply lift_Some in Himg. destruct Himg as [Himg ->].
    apply bind_Some in H. destruct H as (ints & l6 & l6' & Hints & H & ->).
    apply lift_Some in Hints. destruct Hints as [Hints ->].
    apply bind_Some in H. destruct H as ([total' ts'] & l7 & l7' & Hrest & H & ->).
    injection H as <- <- <-.
    apply IH in Hrest. simpl. rewrite !app_nil_r.
    apply divisorsNonZero_app. split; [|exact Hrest].
    apply estimateSimilarityTransform_Some in Htrans. destruct Htrans as (al & Hal & _).
    exact (estimateAlignment_divisors _ _ _ _ Hne Hal).
Qed.

(** What the later statements need of the state [fit] leaves: the anchors
    are landmarks of the mean shape, one for each offset, and the mean
    residual has [numLandmarks] columns. *)
Lemma fit_Some_state (d : Regressor.data) (t : Regressor.RegressorTraining)
      (r : Regressor.FitResult) (tr : ExecTrace) :
  Regressor.fit d t = Some (r, tr) ->
  let fd := Regressor.fit_data r in
  length (Regressor.d_closestShapeLandmark fd)
  = length (Regressor.d_shapeRelativePixelCoordinates fd) /\
  anchorsWithin (length (Regressor.r_meanShape t)) (Regressor.d_closestShapeLandmark fd) /\
  Z.of_nat (length (Regressor.d_meanResidual fd)) = Regressor.r_numLandmarks t /\
  Regressor.d_meanShape fd = Regressor.r_meanShape t /\
  Regressor.r_meanShape t <> [].
Proof.
  intros H. cbv zeta. apply fit_Some in H. cbv zeta in H.
  destruct H as (HK & HL & pc & rnd1 & tr1 & rel & cl & total & init & tr2 & st & tr3 & H).
  destruct H as (Hsample & Hrel & Hprep & _ & -> & _).
  cbn [Regressor.fit_data Regressor.d_shapeRelativePixelCoordinates
       Regressor.d_closestShapeLandmark Regressor.d_meanResidual Regressor.d_meanShape].
  apply sampleCoordinates_Some in Hsample.
  destruct Hsample as (minC & maxC & Hmin & _ & _ & _ & _).
  apply shapeRelativePixelCoordinates_Some in Hrel. destruct Hrel as (Hlrel & Hlcl & Hanch).
  apply prepareSamples_Some in Hprep. destruct Hprep as (_ & Htotal & Hlen & _).
  split; [congruence|]. split; [exact Hanch|].
  split.
  { rewrite shape_divs_length, Htotal, fold_shape_add_length.
    - rewrite shape_zero_length. lia.
    - apply Forall_map. exact Hlen. }
  split; [reflexivity|].
  intros Hnil. rewrite Hnil in Hmin. discriminate.
Qed.

(** X14: what a run of [fit] that returns leaves in the regressor, whatever the
    regressor held before: as many trees as [numTrees]; one offset and one
    anchor for each of the [numRandomPixelCoordinates] coordinates, every
    anchor the index of a landmark of the mean shape; a mean residual of
    [numLandmarks] columns; the mean shape, which has a landmark, and the
    learning rate of the training set. *)
Theorem fit_stored_state (d : Regressor.data) (t : Regressor.RegressorTraining)
        (r : Regressor.FitResult) (tr : ExecTrace) :
  Regressor.fit d t = Some (r, tr) ->
  let params := Regressor.td_params (Regressor.r_trainingData t) in
  let fd := Regressor.fit_data r in
  Z.of_nat (length (Regressor.d_trees fd)) = numTrees params /\
  Z.of_nat (length (Regressor.d_shapeRelativePixelCoordinates fd))
  = numRandomPixelCoordinates params /\
  length (Regressor.d_closestShapeLandmark fd)
  = length (Regressor.d_shapeRelativePixelCoordinates fd) /\
  anchorsWithin (length (Regressor.r_meanShape t)) (Regressor.d_closestShapeLandmark fd) /\
  Z.of_nat (length (Regressor.d_meanResidual fd)) = Regressor.r_numLandmarks t /\
  Regressor.d_meanShape fd = Regressor.r_meanShape t /\
  Regressor.r_meanShape t <> [] /\
  Regressor.d_learningRate fd = learningRate params.
Proof.
  intros H. cbv zeta.
  destruct (fit_Some_state _ _ _ _ H) as (Hlcl & Hanch & Hres & Hmean & Hne).
  apply fit_Some in H. cbv zeta in H.
  destruct H as (HK & HL & pc & rnd1 & tr1 & rel & cl & total & init & tr2 & st & tr3 & H).
  destruct H as (Hsample & Hrel & _ & Hloop & -> & _).
  cbn [Regressor.fit_data Regressor.d_trees Regressor.d_shapeRelativePixelCoordinates
       Regressor.d_closestShapeLandmark Regressor.d_meanResidual Regressor.d_meanShape
       Regressor.d_learningRate] in *.
  apply sampleCoordinates_Some in Hsample.
  destruct Hsample as (minC & maxC & _ & _ & Hn & Hdraw & _).
  apply shapeRelativePixelCoordinates_Some in Hrel. destruct Hrel as (Hlrel & _ & _).
  apply boostLoop_length in Hloop. cbn [Regressor.b_trees] in Hloop.
  rewrite resize_length in Hloop.
  assert (Hpc : length pc
                = Z.to_nat (numRandomPixelCoordinates
                              (Regressor.td_params (Regressor.r_trainingData t)))).
  { pose proof (drawCoordinates_length minC maxC
                  (Z.to_nat (numRandomPixelCoordinates
                               (Regressor.td_params (Regressor.r_trainingData t))))
                  (Regressor.td_rnd (Regressor.r_trainingData t))) as Hd.
    rewrite <- Hdraw in Hd. exact Hd. }
  split; [rewrite Hloop; lia|].
  split; [rewrite Hlrel, Hpc; lia|].
  split; [exact Hlcl|]. split; [exact Hanch|]. split; [exact Hres|].
  split; [exact Hmean|]. split; [exact Hne | reflexivity].
Qed.

(** X15: [predict] after [fit]: on a regressor a run of [fit] has left, [predict]
    returns for every query shape with as many landmarks as the mean shape,
    provided the trees predict residuals of [numLandmarks] columns; no
    coordinate is anchored outside the query shape, the result has
    [numLandmarks] columns, and no division of the run has a zero
    divisor. *)
Theorem predict_after_fit (d : Regressor.data) (t : Regressor.RegressorTraining)
        (r : Regressor.FitResult) (tr : ExecTrace) (img : Image) (shape : Shape) :
  Regressor.fit d t = Some (r, tr) ->
  length shape = length (Regressor.r_meanShape t) ->
  (forall tree intensities,
      In tree (Regressor.d_trees (Regressor.fit_data r)) ->
      Z.of_nat (length (Tree_predict tree intensities)) = Regressor.r_numLandmarks t) ->
  exists sr tr',
    Regressor.predict (Regressor.fit_data r) img shape = Some (sr, tr') /\
    Z.of_nat (length sr) = Regressor.r_numLandmarks t /\
    divisorsNonZero tr'.
Proof.
  intros Hfit Hshape Htrees.
  pose proof (fit_Some_state _ _ _ _ Hfit) as Hst. cbv zeta in Hst.
  destruct Hst as (Hlcl & Hanch & Hres & Hmean & Hne).
  set (fd := Regressor.fit_data r) in *.
  assert (Hlen : length (Regressor.d_meanShape fd) = length shape) by congruence.
  destruct (estimateAlignment_returns _ _ Hlen) as (al & tr' & Hal).
  assert (Htrans : estimateSimilarityTransform (Regressor.d_meanShape fd) shape
                   = Some (mkAffine (mscale (al_c al) (al_rot al)) (al_t al), tr')).
  { unfold estimateSimilarityTransform, bind, ret. rewrite Hal, app_nil_r. reflexivity. }
  set (trans := mkAffine _ _) in *.
  destruct (anchorCoordinates_returns shape (Regressor.d_closestShapeLandmark fd)
              (map (mvec (linear trans)) (Regressor.d_shapeRelativePixelCoordinates fd)))
    as (coords & Hcoords).
  { rewrite Hshape. exact Hanch. }
  { rewrite length_map. symmetry. exact Hlcl. }
  destruct (accumulate_returns (Regressor.d_learningRate fd) (readImage img coords)
              (Regressor.d_trees fd) (Regressor.d_meanResidual fd)) as (sr & Hsr & Hlsr).
  { apply Forall_forall. intros tree Hin.
    apply Nat2Z.inj. rewrite Hres. apply Htrees. exact Hin. }
  exists sr, tr'. split; [|split].
  - unfold Regressor.predict, bind, lift, Regressor.readPixelIntensities.
    rewrite Htrans, Hcoords, Hsr. cbn [app]. rewrite !app_nil_r. reflexivity.
  - rewrite Hlsr. exact Hres.
  - apply (estimateAlignment_divisors (Regressor.d_meanShape fd) shape al tr');
      [rewrite Hmean; exact Hne | exact Hal].
Qed.

(** X16: a run of [fit] calls [Tree::fit] once for every tree, in the order of
    the trees: tree 0 first, tree [numTrees - 1] last, and no tree twice. *)
Theorem fit_calls_in_order (d : Regressor.data) (t : Regressor.RegressorTraining)
        (r : Regressor.FitResult) (tr : ExecTrace) :
  Regressor.fit d t = Some (r, tr) ->
  fitCalls tr
  = seq 0 (Z.to_nat (numTrees (Regressor.td_params (Regressor.r_trainingData t)))).
Proof.
  intros H. apply fit_Some in H. cbv zeta in H.
  destruct H as (HK & HL & pc & rnd1 & tr1 & rel & cl & total & init & tr2 & st & tr3 & H).
  destruct H as (Hsample & _ & Hprep & Hloop & _ & ->).
  apply sampleCoordinates_Some in Hsample.
  destruct Hsample as (minC & maxC & _ & _ & _ & _ & ->).
  apply prepareSamples_Some in Hprep. destruct Hprep as (_ & _ & _ & Hdiv).
  apply boostLoop_calls in Hloop. destruct Hloop as [Hcalls _].
  cbn [app]. rewrite fitCalls_app, (fitCalls_divisions _ Hdiv). cbn [app fitCalls].
  exact Hcalls.
Qed.

(** X17: a run of [fit] that returns divides by zero exactly when the training
    set has no sample: with at least one sample every divisor of the run
    (the landmark counts and source variances of the alignments, and the
    sample count) is non-zero. *)
Theorem fit_divisors (d : Regressor.data) (t : Regressor.RegressorTraining)
        (r : Regressor.FitResult) (tr : ExecTrace) :
  Regressor.fit d t = Some (r, tr) ->
  (divisorsNonZero tr <-> Regressor.r_samples t <> []).
Proof.
  intros H. pose proof (fit_Some_state _ _ _ _ H) as Hst. cbv zeta in Hst.
  destruct Hst as (_ & _ & _ & _ & Hne).
  apply fit_Some in H. cbv zeta in H.
  destruct H as (HK & HL & pc & rnd1 & tr1 & rel & cl & total & init & tr2 & st & tr3 & H).
  destruct H as (Hsample & _ & Hprep & Hloop & _ & ->).
  apply sampleCoordinates_Some in Hsample.
  destruct Hsample as (minC & maxC & _ & _ & _ & _ & ->).
  apply (prepareSamples_divisors _ _ _ Hne) in Hprep.
  apply boostLoop_calls in Hloop. destruct Hloop as [_ Hnz3].
  cbn [app]. split.
  - intros Hnz Hnil.
    assert (Hz : isZero (float_of_nat (length (Regressor.r_samples t))) = false).
    { apply (Hnz DivSampleCount). apply in_or_app. right. left. reflexivity. }
    rewrite Hnil in Hz. discriminate Hz.
  - intros Hsamples. apply divisorsNonZero_app. split; [exact Hprep|].
    intros site dv [Hin | Hin]; [|exact (Hnz3 site dv Hin)].
    injection Hin as _ <-.
    destruct (Regressor.r_samples t); [congruence | apply float_of_nat_nonzero].
Qed.

End FitState.

(** ** The statements on [fit], on a complete training run *)

Lemma fit_stored_state_witness :
  exists r tr,
    Regressor.fit Bench.untrained Bench.training = Some (r, tr) /\
    Z.of_nat (length (Regressor.d_trees (Regressor.fit_data r))) = 2%Z /\
    Z.of_nat (length (Regressor.d_shapeRelativePixelCoordinates (Regressor.fit_data r)))
    = 2%Z /\
    length (Regressor.d_closestShapeLandmark (Regressor.fit_data r))
    = length (Regressor.d_shapeRelativePixelCoordinates (Regressor.fit_data r)) /\
    anchorsWithin (length Bench.kite)
                  (Regressor.d_closestShapeLandmark (Regressor.fit_data r)) /\
    Z.of_nat (length (Regressor.d_meanResidual (Regressor.fit_data r))) = 4%Z /\
    Regressor.d_meanShape (Regressor.fit_data r) = Bench.kite /\
    Bench.kite <> [] /\
    Regressor.d_learningRate (Regressor.fit_data r) = Bench.q 1 2.
Proof.
  assert (H : Regressor.fit Bench.untrained Bench.training = Bench.trainingRun)
    by reflexivity.
  unfold Bench.trainingRun in H.
  do 2 eexists. split; [exact H|]. exact (fit_stored_state _ _ _ _ H).
Defined.

Lemma bench_trees_predict_landmarks :
  forall r tr,
    Regressor.fit Bench.untrained Bench.training = Some (r, tr) ->
    forall tree intensities,
      In tree (Regressor.d_trees (Regressor.fit_data r)) ->
      Z.of_nat (length (Tree_predict (External := Bench.bench) tree intensities)) = 4%Z.
Proof.
  intros r tr H.
  assert (Hrun : Regressor.fit Bench.untrained Bench.training = Bench.trainingRun)
    by reflexivity.
  rewrite Hrun in H. unfold Bench.trainingRun in H. injection H as <- <-.
  intros tree intensities Hin.
  cbn [Regressor.fit_data Regressor.d_trees In] in Hin.
  destruct Hin as [<- | [<- | []]]; reflexivity.
Defined.

Lemma predict_after_fit_witness :
  exists r tr,
    Regressor.fit Bench.untrained Bench.training = Some (r, tr) /\
    length Bench.kiteShifted = length (Regressor.r_meanShape Bench.training) /\
    (forall tree intensities,
        In tree (Regressor.d_trees (Regressor.fit_data r)) ->
        Z.of_nat (length (Tree_predict (External := Bench.bench) tree intensities))
        = Regressor.r_numLandmarks Bench.training) /\
    exists sr tr',
      Regressor.predict (Regressor.fit_data r) (Bench.mkRamp 1 1 1) Bench.kiteShifted
      = Some (sr, tr') /\
      Z.of_nat (length sr) = Regressor.r_numLandmarks Bench.training /\
      divisorsNonZero tr'.
Proof.
  assert (H : Regressor.fit Bench.untrained Bench.training = Bench.trainingRun)
    by reflexivity.
  unfold Bench.trainingRun in H.
  do 2 eexists. split; [exact H|]. split; [reflexivity|].
  split; [exact (bench_trees_predict_landmarks _ _ H)|].
  exact (predict_after_fit Bench.untrained Bench.training _ _ (Bench.mkRamp 1 1 1)
           Bench.kiteShifted H eq_refl (bench_trees_predict_landmarks _ _ H)).
Defined.

Lemma fit_calls_in_order_witness :
  exists r tr,
    Regressor.fit Bench.untrained Bench.training = Some (r, tr) /\
    fitCalls tr = seq 0 2.
Proof.
  assert (H : Regressor.fit Bench.untrained Bench.training = Bench.trainingRun)
    by reflexivity.
  unfold Bench.trainingRun in H.
  do 2 eexists. split; [exact H|]. exact (fit_calls_in_order _ _ _ _ H).
Defined.

Lemma fit_divisors_witness :
  exists r tr,
    Regressor.fit Bench.untrained Bench.training = Some (r, tr) /\
    (divisorsNonZero tr <-> Regressor.r_samples Bench.training <> []).
Proof.
  assert (H : Regressor.fit Bench.untrained Bench.training = Bench.trainingRun)
    by reflexivity.
  unfold Bench.trainingRun in H.
  do 2 eexists. split; [exact H|]. exact (fit_divisors _ _ _ _ H).
Defined.

(** ** [sampleCoordinates]: how many coordinates, and from which draws *)

Section SamplingCount.
Context `{E : External}.

(** X1: [sampleCoordinates] returns only on a mean shape with a landmark
    and a count [numRandomPixelCoordinates] that is not negative; it then
    returns exactly that many coordinates and divides nothing.  The first
    coordinate is [(minC.x + dx, maxC.y + dy)] for the first two draws [dx]
    of [uniform_real(0, maxC.x - minC.x)] and [dy] of
    [uniform_real(0, maxC.y - minC.y)], as lines 164 and 165 compute it. *)
Theorem sampleCoordinates_count (t : Regressor.RegressorTraining) (coords : PixelCoordinates)
        (rnd : Rnd) (tr : ExecTrace) :
  Regressor.sampleCoordinates t = Some ((coords, rnd), tr) ->
  let N := numRandomPixelCoordinates (Regressor.td_params (Regressor.r_trainingData t)) in
  Regressor.r_meanShape t <> [] /\
  (0 <= N)%Z /\
  Z.of_nat (length coords) = N /\
  tr = [] /\
  exists minC maxC,
    rowwise_minCoeff (Regressor.r_meanShape t) = Some minC /\
    rowwise_maxCoeff (Regressor.r_meanShape t) = Some maxC /\
    forall p, nth_error coords 0 = Some p ->
      let rnd0 := Regressor.td_rnd (Regressor.r_trainingData t) in
      let dx := uniform_real 0 (vx maxC - vx minC) rnd0 in
      let dy := uniform_real 0 (vy maxC - vy minC) (snd dx) in
      p = mkV (vx minC + fst dx) (vy maxC + fst dy).
Proof.
  intros H. cbv zeta. apply sampleCoordinates_Some in H.
  destruct H as (minC & maxC & Hmin & Hmax & HN & Hdraw & ->).
  split; [intros Hnil; rewrite Hnil in Hmin; discriminate|].
  split; [exact HN|].
  split.
  { pose proof (drawCoordinates_length minC maxC
                  (Z.to_nat (numRandomPixelCoordinates
                               (Regressor.td_params (Regressor.r_trainingData t))))
                  (Regressor.td_rnd (Regressor.r_trainingData t))) as Hd.
    rewrite <- Hdraw in Hd. cbn [fst] in Hd. rewrite Hd. lia. }
  split; [reflexivity|].
  exists minC, maxC. split; [exact Hmin|]. split; [exact Hmax|].
  intros p Hp.
  destruct (Z.to_nat _) as [|n]; cbn [Regressor.drawCoordinates] in Hdraw.
  - injection Hdraw as -> _. discriminate Hp.
  - destruct (uniform_real 0 (vx maxC - vx minC) _) as [x rnd1]. cbn [fst snd].
    destruct (uniform_real 0 (vy maxC - vy minC) rnd1) as [y rnd2]. cbn [fst].
    destruct (Regressor.drawCoordinates n minC maxC rnd2) as [rest rnd3].
    injection Hdraw as -> _. cbn [nth_error] in Hp. injection Hp as <-. reflexivity.
Qed.

End SamplingCount.

Lemma sampleCoordinates_count_witness :
  exists coords rnd tr,
    Regressor.sampleCoordinates Bench.sampling = Some ((coords, rnd), tr) /\
    let N := numRandomPixelCoordinates
               (Regressor.td_params (Regressor.r_trainingData Bench.sampling)) in
    Regressor.r_meanShape Bench.sampling <> [] /\
    (0 <= N)%Z /\
    Z.of_nat (length coords) = N /\
    tr = [] /\
    exists minC maxC,
      rowwise_minCoeff (Regressor.r_meanShape Bench.sampling) = Some minC /\
      rowwise_maxCoeff (Regressor.r_meanShape Bench.sampling) = Some maxC /\
      forall p, nth_error coords 0 = Some p ->
        let rnd0 := Regressor.td_rnd (Regressor.r_trainingData Bench.sampling) in
        let dx := Bench.replay 0 (vx maxC - vx minC) rnd0 in
        let dy := Bench.replay 0 (vy maxC - vy minC) (snd dx) in
        p = mkV (vx minC + fst dx) (vy maxC + fst dy).
Proof.
  assert (H : Regressor.sampleCoordinates Bench.sampling = Bench.samplingRun)
    by reflexivity.
  unfold Bench.samplingRun in H.
  do 3 eexists. split; [exact H|].
  exact (sampleCoordinates_count (E := Bench.bench) _ _ _ _ H).
Defined.

(** ** [readPixelIntensities]: where it reads *)

Lemma anchorCoordinates_Some (s : Shape) :
  forall (closest : list Z) (coords coords' : PixelCoordinates),
    Regressor.anchorCoordinates s closest coords = Some coords' ->
    length coords' = length coords /\
    forall i c0, nth_error coords i = Some c0 ->
      exists c p, nth_error closest i = Some c /\
                  col s c = Some p /\
                  nth_error coords' i = Some (vadd c0 p).
Proof.
  intros closest coords. revert closest.
  induction coords as [|c0 coords IH]; intros [|c cl] coords' H;
    cbn [Regressor.anchorCoordinates] in H; try discriminate.
  - injection H as <-. split; [reflexivity|]. intros [|i] x Hx; discriminate.
  - injection H as <-. split; [reflexivity|]. intros [|i] x Hx; discriminate.
  - destruct (col s c) as [p|] eqn:Hp; [|discriminate].
    destruct (Regressor.anchorCoordinates s cl coords) as [rest|] eqn:Hr; [|discriminate].
    injection H as <-. destruct (IH _ _ Hr) as [Hlen Hall].
    split; [cbn [length]; congruence|].
    intros [|i] x Hx; cbn [nth_error] in *.
    + injection Hx as <-. exists c, p. auto.
    + apply Hall. exact Hx.
Qed.

Section ReadPixelIntensitiesAnchors.
Context `{E : External}.

(** X10: when [readPixelIntensities] returns, it has read the image at one
    coordinate for every stored offset, in their order: the product of the
    linear part of the transform and the offset, plus the landmark of the
    shape at the anchor stored for that offset, each operation rounded to
    a float. *)
Theorem readPixelIntensities_reads_anchored (d : Regressor.data) (trans : AffineCompact2f)
        (s : Shape) (img : Image) (intensities : PixelIntensities) :
  Regressor.readPixelIntensities d trans s img = Some intensities ->
  exists coords : PixelCoordinates,
    intensities = readImage img coords /\
    length coords = length (Regressor.d_shapeRelativePixelCoordinates d) /\
    forall i r, nth_error (Regressor.d_shapeRelativePixelCoordinates d) i = Some r ->
      exists c p, nth_error (Regressor.d_closestShapeLandmark d) i = Some c /\
                  col s c = Some p /\
                  nth_error coords i = Some (vadd (mvec (linear trans) r) p).
Proof.
  unfold Regressor.readPixelIntensities.
  destruct (Regressor.anchorCoordinates _ _ _) as [coords|] eqn:Hc; [|discriminate].
  intros [= <-]. apply anchorCoordinates_Some in Hc. destruct Hc as [Hlen Hall].
  rewrite length_map in Hlen.
  exists coords. split; [reflexivity|]. split; [exact Hlen|].
  intros i r Hr. apply Hall. rewrite nth_error_map, Hr. reflexivity.
Qed.

End ReadPixelIntensitiesAnchors.

Lemma readPixelIntensities_reads_anchored_witness :
  exists intensities,
    Regressor.readPixelIntensities Bench.trained (mkAffine midentity vzero)
      Bench.kiteShifted (Bench.mkRamp 1 1 1) = Some intensities /\
    exists coords : PixelCoordinates,
      intensities = Bench.readRamp (Bench.mkRamp 1 1 1) coords /\
      length coords = length (Regressor.d_shapeRelativePixelCoordinates Bench.trained) /\
      forall i r,
        nth_error (Regressor.d_shapeRelativePixelCoordinates Bench.trained) i = Some r ->
        exists c p, nth_error (Regressor.d_closestShapeLandmark Bench.trained) i = Some c /\
                    col Bench.kiteShifted c = Some p /\
                    nth_error coords i = Some (vadd (mvec midentity r) p).
Proof.
  assert (H : Regressor.readPixelIntensities Bench.trained (mkAffine midentity vzero)
                Bench.kiteShifted (Bench.mkRamp 1 1 1)
              = Some (Bench.readRamp (Bench.mkRamp 1 1 1)
                        [vadd (mvec midentity (mkV (Bench.q 1 2) 0)) (mkV (Bench.q 3 2) 0);
                         vadd (mvec midentity (mkV 0 (Bench.q 1 2)))
                              (mkV (Bench.q 1 2) (Bench.q 2 1))]))
    by reflexivity.
  eexists. split; [exact H|].
  exact (readPixelIntensities_reads_anchored (E := Bench.bench) _ _ _ _ _ H).
Defined.
